(** * Ecole: the solver-state handle ([scip::Model]) and the NodeBipartite
    observation extractor.

    A shallow embedding of [libecole/src/scip/model.cpp] and of the
    declarations of [libecole/include/ecole/observation/node-bipartite.hpp].

    The wrapped solver library (SCIP) is external to the repository.  Its
    instances live in a store addressed by pointers, so that the identity of
    an instance (what [Model::operator==] compares) and its content are kept
    apart.  C++ exceptions are an outcome of the computation, next to normal
    return and undefined behaviour (dereferencing a null or dangling
    pointer). *)

From Stdlib Require Import ZArith String Ascii List Lia.
From Stdlib Require Import Floats.SpecFloat.
From stdpp Require Import base gmap strings list fin_maps.

Local Open Scope Z_scope.

(** ** Types of the solver library used by the wrapper *)

(** [SCIP_STAGE] of [scip/type_set.h]. *)
Inductive SCIP_STAGE : Set :=
| SCIP_STAGE_INIT
| SCIP_STAGE_PROBLEM
| SCIP_STAGE_TRANSFORMING
| SCIP_STAGE_TRANSFORMED
| SCIP_STAGE_INITPRESOLVE
| SCIP_STAGE_PRESOLVING
| SCIP_STAGE_EXITPRESOLVE
| SCIP_STAGE_PRESOLVED
| SCIP_STAGE_INITSOLVE
| SCIP_STAGE_SOLVING
| SCIP_STAGE_SOLVED
| SCIP_STAGE_EXITSOLVE
| SCIP_STAGE_FREETRANS
| SCIP_STAGE_FREE.

#[global] Instance SCIP_STAGE_eq_dec : EqDecision SCIP_STAGE.
Proof. solve_decision. Defined.

(** [SCIP_RETCODE] of [scip/type_retcode.h]. *)
Inductive SCIP_RETCODE : Set :=
| SCIP_OKAY
| SCIP_ERROR
| SCIP_NOMEMORY
| SCIP_READERROR
| SCIP_WRITEERROR
| SCIP_NOFILE
| SCIP_FILECREATEERROR
| SCIP_LPERROR
| SCIP_NOPROBLEM
| SCIP_INVALIDCALL
| SCIP_INVALIDDATA
| SCIP_INVALIDRESULT
| SCIP_PLUGINNOTFOUND
| SCIP_PARAMETERUNKNOWN
| SCIP_PARAMETERWRONGTYPE
| SCIP_PARAMETERWRONGVAL
| SCIP_KEYALREADYEXISTING
| SCIP_MAXDEPTHLEVEL
| SCIP_BRANCHERROR.

#[global] Instance SCIP_RETCODE_eq_dec : EqDecision SCIP_RETCODE.
Proof. solve_decision. Defined.

(** [SCIP_PARAMTYPE] of [scip/type_paramset.h]. *)
Inductive SCIP_PARAMTYPE : Set :=
| SCIP_PARAMTYPE_BOOL
| SCIP_PARAMTYPE_INT
| SCIP_PARAMTYPE_LONGINT
| SCIP_PARAMTYPE_REAL
| SCIP_PARAMTYPE_CHAR
| SCIP_PARAMTYPE_STRING.

#[global] Instance SCIP_PARAMTYPE_eq_dec : EqDecision SCIP_PARAMTYPE.
Proof. solve_decision. Defined.

(** [SCIP_Real] is [double]: an IEEE-754 binary64 value.  Parameters and
    features are stored and loaded, never computed with, so the value is kept
    as the standard library's specification float. *)
Definition SCIP_Real : Set := spec_float.

(** [int] is 32 bits wide, [SCIP_Longint] 64 bits. *)
Definition INT_MIN : Z := - 2 ^ 31.
Definition INT_MAX : Z := 2 ^ 31 - 1.
Definition is_int (v : Z) : Prop := INT_MIN <= v <= INT_MAX.

(** Conversion of an out-of-range value to [int]: two's complement wrap. *)
Definition wrap_int (v : Z) : Z := (v + 2 ^ 31) mod 2 ^ 32 - 2 ^ 31.

(** [static_cast<std::size_t>] of an [int], [std::size_t] being 64 bits wide. *)
Definition size_t_of_int (v : Z) : Z := v mod 2 ^ 64.

(** A stored parameter: the type tag and the value of that type
    ([struct SCIP_Param], a tagged union). *)
Inductive SCIP_Param : Set :=
| BoolParam (value : bool)
| IntParam (value : Z)
| LongintParam (value : Z)
| RealParam (value : SCIP_Real)
| CharParam (value : ascii)
| StringParam (value : string).

(** [SCIPparamGetType]. *)
Definition SCIPparamGetType (param : SCIP_Param) : SCIP_PARAMTYPE :=
  match param with
  | BoolParam _ => SCIP_PARAMTYPE_BOOL
  | IntParam _ => SCIP_PARAMTYPE_INT
  | LongintParam _ => SCIP_PARAMTYPE_LONGINT
  | RealParam _ => SCIP_PARAMTYPE_REAL
  | CharParam _ => SCIP_PARAMTYPE_CHAR
  | StringParam _ => SCIP_PARAMTYPE_STRING
  end.

(** Entities owned by a solver instance.  Only what the views and the
    extractor read is kept. *)
Inductive SCIP_VARTYPE : Set :=
| SCIP_VARTYPE_BINARY
| SCIP_VARTYPE_INTEGER
| SCIP_VARTYPE_IMPLINT
| SCIP_VARTYPE_CONTINUOUS.

Inductive SCIP_BASESTAT : Set :=
| SCIP_BASESTAT_LOWER
| SCIP_BASESTAT_BASIC
| SCIP_BASESTAT_UPPER
| SCIP_BASESTAT_ZERO.

Record SCIP_VAR : Set := {
  var_obj : SCIP_Real;
  var_type : SCIP_VARTYPE;
  var_has_lb : bool;
  var_has_ub : bool;
  var_normed_redcost : SCIP_Real;
  var_sol : SCIP_Real;
  var_sol_frac : SCIP_Real;
  var_sol_at_lb : bool;
  var_sol_at_ub : bool;
  var_scaled_age : SCIP_Real;
  var_incumbent : SCIP_Real;
  var_avg_incumbent : SCIP_Real;
  var_basis : SCIP_BASESTAT;
  var_index : SCIP_Real;
}.

Record SCIP_COL : Set := {
  col_var : nat;
}.

Record SCIP_ROW : Set := {
  row_bias : SCIP_Real;
  row_obj_cosine : SCIP_Real;
  row_is_tight : bool;
  row_dual : SCIP_Real;
  row_age : SCIP_Real;
  (* the nonzero coefficients of the row: variable position and value *)
  row_nonz : list (nat * SCIP_Real);
}.

(** The content of one solver instance ([struct Scip]), as far as the wrapper
    observes it. *)
Record SCIP : Set := {
  stage : SCIP_STAGE;
  quiet : bool;
  default_plugins : bool;
  paramset : gmap string SCIP_Param;
  vars : list SCIP_VAR;
  lpcols : list SCIP_COL;
  lprows : list SCIP_ROW;
}.

Definition set_quiet (q : bool) (s : SCIP) : SCIP :=
  {| stage := stage s; quiet := q; default_plugins := default_plugins s;
     paramset := paramset s; vars := vars s;
     lpcols := lpcols s; lprows := lprows s |}.

Definition set_paramset (ps : gmap string SCIP_Param) (s : SCIP) : SCIP :=
  {| stage := stage s; quiet := quiet s; default_plugins := default_plugins s;
     paramset := ps; vars := vars s;
     lpcols := lpcols s; lprows := lprows s |}.

(** The part of the solver library the wrapper calls but whose effect on an
    instance this development leaves open: the built-in parameter table of a
    new instance, plugin registration, cloning and problem reading.  Each
    returns the library's return code and the new content of the target
    instance. *)
Class SolverLib : Type := {
  core_paramset : gmap string SCIP_Param;
  SCIPincludeDefaultPlugins_ : SCIP -> SCIP_RETCODE * SCIP;
  (* source instance, target instance *)
  SCIPcopy_ : SCIP -> SCIP -> SCIP_RETCODE * SCIP;
  SCIPreadProb_ : SCIP -> string -> SCIP_RETCODE * SCIP;
}.

(** ** Exceptions, the store and the computation monad *)

(** [ecole::scip::Exception].  It is built from a message, or by
    [make_exception] from a return code of the library. *)
Inductive Exception : Set :=
| Exception_what (message : string)
| Exception_retcode (retcode : SCIP_RETCODE).

(** Modelled from the spec: [make_exception] of [scip/utils.hpp], which is
    missing from the sources.  Failures of library calls are
    translated into a domain error that is determined by the return code. *)
Definition make_exception (retcode : SCIP_RETCODE) : Exception :=
  Exception_retcode retcode.

(** The error kinds of the specification that [model.cpp] raises. *)
Definition UnknownParameter : Exception := make_exception SCIP_PARAMETERUNKNOWN.
Definition TypeMismatch : Exception := make_exception SCIP_PARAMETERWRONGTYPE.
Definition StageViolation (e : Exception) : Prop :=
  e = Exception_what "LP columns are only available during solving"
  \/ e = Exception_what "LP rows are only available during solving".

Definition loc : Set := positive.

(** [class Model]: its one data member is [unique_ptr<SCIP> scip]; [None] is
    the null pointer. *)
Record Model : Set := { scip : option loc }.

(** The store: the solver instances that are alive, and the [Model] objects
    that are alive, each under its address. *)
Record World : Type := {
  scips : gmap loc SCIP;
  models : gmap loc Model;
}.

Inductive Outcome (A : Type) : Type :=
| Ok (a : A)
| Throw (e : Exception)
| Undefined.
Arguments Ok {A} a.
Arguments Throw {A} e.
Arguments Undefined {A}.

Definition M (A : Type) : Type := World -> Outcome A * World.

Definition ret {A} (a : A) : M A := fun w => (Ok a, w).
Definition throw {A} (e : Exception) : M A := fun w => (Throw e, w).
Definition undefined {A} : M A := fun w => (Undefined, w).
Definition bind {A B} (m : M A) (k : A -> M B) : M B :=
  fun w =>
    match m w with
    | (Ok a, w') => k a w'
    | (Throw e, w') => (Throw e, w')
    | (Undefined, w') => (Undefined, w')
    end.

Notation "'let!' x ':=' m 'in' k" := (bind m (fun x => k))
  (at level 10, x pattern, m at level 100, k at level 200).
Notation "m ';;' k" := (bind m (fun _ => k))
  (at level 100, k at level 200, right associativity).

(** Runs [m]; if it throws, runs [cleanup] (the destructors of the enclosing
    scope) and throws again. *)
Definition on_unwind {A} (m : M A) (cleanup : M unit) : M A :=
  fun w =>
    match m w with
    | (Throw e, w') =>
        match cleanup w' with
        | (Ok _, w'') => (Throw e, w'')
        | (Throw e', w'') => (Throw e', w'')
        | (Undefined, w'') => (Undefined, w'')
        end
    | r => r
    end.

Definition get_scips : M (gmap loc SCIP) := fun w => (Ok (scips w), w).
Definition put_scips (h : gmap loc SCIP) : M unit :=
  fun w => (Ok tt, {| scips := h; models := models w |}).
Definition get_models : M (gmap loc Model) := fun w => (Ok (models w), w).
Definition put_models (h : gmap loc Model) : M unit :=
  fun w => (Ok tt, {| scips := scips w; models := h |}).

(** Reading and writing through a [SCIP*]. *)
Definition deref (p : option loc) : M SCIP :=
  let! h := get_scips in
  match p with
  | None => undefined
  | Some l => match h !! l with Some s => ret s | None => undefined end
  end.

Definition assign (p : option loc) (s : SCIP) : M unit :=
  let! h := get_scips in
  match p with
  | None => undefined
  | Some l =>
      match h !! l with
      | Some _ => put_scips (<[l := s]> h)
      | None => undefined
      end
  end.

(** Modelled from the spec: [scip::call] of [scip/utils.hpp], which is
    missing from the sources.  A return code other than [SCIP_OKAY] is
    thrown as the exception [make_exception] builds from it. *)
Definition call (retcode : SCIP_RETCODE) : M unit :=
  match retcode with
  | SCIP_OKAY => ret tt
  | _ => throw (make_exception retcode)
  end.

(** ** The library calls of [model.cpp] *)

Section Solver.
Context `{lib : SolverLib}.

(** A solver instance right after [SCIPcreate]. *)
Definition new_instance : SCIP :=
  {| stage := SCIP_STAGE_INIT; quiet := false; default_plugins := false;
     paramset := core_paramset; vars := []; lpcols := []; lprows := [] |}.

(** [SCIPcreate(&scip)]: a new instance at an address not in use. *)
Definition SCIPcreate : M (SCIP_RETCODE * option loc) :=
  let! h := get_scips in
  let l := fresh (dom h) in
  put_scips (<[l := new_instance]> h) ;;
  ret (SCIP_OKAY, Some l).

(** [SCIPfree(&scip)]. *)
Definition SCIPfree (p : option loc) : M SCIP_RETCODE :=
  deref p ;;
  let! h := get_scips in
  match p with
  | Some l => put_scips (delete l h) ;; ret SCIP_OKAY
  | None => undefined
  end.

(** [SCIPmessagehdlrSetQuiet(SCIPgetMessagehdlr(scip), quiet)]. *)
Definition SCIPmessagehdlrSetQuiet (p : option loc) (q : bool) : M unit :=
  let! s := deref p in
  assign p (set_quiet q s).

Definition SCIPgetStage (p : option loc) : M SCIP_STAGE :=
  let! s := deref p in
  ret (stage s).

(** Runs a library call that rewrites the content of the instance at [p]. *)
Definition update (p : option loc) (f : SCIP -> SCIP_RETCODE * SCIP)
  : M SCIP_RETCODE :=
  let! s := deref p in
  assign p (snd (f s)) ;;
  ret (fst (f s)).

Definition SCIPincludeDefaultPlugins (p : option loc) : M SCIP_RETCODE :=
  update p SCIPincludeDefaultPlugins_.

Definition SCIPreadProb (p : option loc) (filename : string) : M SCIP_RETCODE :=
  update p (fun s => SCIPreadProb_ s filename).

(** [SCIPcopy(source, target, ...)]: only the target is written. *)
Definition SCIPcopy (source target : option loc) : M SCIP_RETCODE :=
  let! s := deref source in
  update target (SCIPcopy_ s).

(** The entity counts the library reports are [int]s. *)
Definition SCIPgetNVars (p : option loc) : M Z :=
  let! s := deref p in ret (Z.of_nat (length (vars s))).
Definition SCIPgetVars (p : option loc) : M (list SCIP_VAR) :=
  let! s := deref p in ret (vars s).
Definition SCIPgetNLPCols (p : option loc) : M Z :=
  let! s := deref p in ret (Z.of_nat (length (lpcols s))).
Definition SCIPgetLPCols (p : option loc) : M (list SCIP_COL) :=
  let! s := deref p in ret (lpcols s).
Definition SCIPgetNLPRows (p : option loc) : M Z :=
  let! s := deref p in ret (Z.of_nat (length (lprows s))).
Definition SCIPgetLPRows (p : option loc) : M (list SCIP_ROW) :=
  let! s := deref p in ret (lprows s).

(** *** The parameter store *)

(** Modelled from the spec: the parameter store of the solver library.  A
    parameter is a named setting with a type tag; it is looked up by name, and
    a read or a write must match the declared type exactly.  An unknown name
    is answered with [SCIP_PARAMETERUNKNOWN], another type with
    [SCIP_PARAMETERWRONGTYPE], and neither changes the instance. *)
Definition SCIPgetParam (p : option loc) (name : string) : M (option SCIP_Param) :=
  let! s := deref p in
  ret (paramset s !! name).

Definition SCIPsetParam (p : option loc) (name : string) (new : SCIP_Param)
  : M SCIP_RETCODE :=
  let! s := deref p in
  match paramset s !! name with
  | None => ret SCIP_PARAMETERUNKNOWN
  | Some old =>
      if decide (SCIPparamGetType old = SCIPparamGetType new) then
        assign p (set_paramset (<[name := new]> (paramset s)) s) ;;
        ret SCIP_OKAY
      else ret SCIP_PARAMETERWRONGTYPE
  end.

Definition SCIPsetBoolParam p name (value : bool) := SCIPsetParam p name (BoolParam value).
Definition SCIPsetIntParam p name (value : Z) := SCIPsetParam p name (IntParam value).
Definition SCIPsetLongintParam p name (value : Z) := SCIPsetParam p name (LongintParam value).
Definition SCIPsetRealParam p name (value : SCIP_Real) := SCIPsetParam p name (RealParam value).
Definition SCIPsetCharParam p name (value : ascii) := SCIPsetParam p name (CharParam value).
Definition SCIPsetStringParam p name (value : string) := SCIPsetParam p name (StringParam value).

(** The getters write through the pointer [value] only on success; the last
    argument is what the pointer held before. *)
Definition SCIPgetBoolParam p name (value : bool) : M (SCIP_RETCODE * bool) :=
  let! s := deref p in
  match paramset s !! name with
  | None => ret (SCIP_PARAMETERUNKNOWN, value)
  | Some (BoolParam v) => ret (SCIP_OKAY, v)
  | Some _ => ret (SCIP_PARAMETERWRONGTYPE, value)
  end.
Definition SCIPgetIntParam p name (value : Z) : M (SCIP_RETCODE * Z) :=
  let! s := deref p in
  match paramset s !! name with
  | None => ret (SCIP_PARAMETERUNKNOWN, value)
  | Some (IntParam v) => ret (SCIP_OKAY, v)
  | Some _ => ret (SCIP_PARAMETERWRONGTYPE, value)
  end.
Definition SCIPgetLongintParam p name (value : Z) : M (SCIP_RETCODE * Z) :=
  let! s := deref p in
  match paramset s !! name with
  | None => ret (SCIP_PARAMETERUNKNOWN, value)
  | Some (LongintParam v) => ret (SCIP_OKAY, v)
  | Some _ => ret (SCIP_PARAMETERWRONGTYPE, value)
  end.
Definition SCIPgetRealParam p name (value : SCIP_Real) : M (SCIP_RETCODE * SCIP_Real) :=
  let! s := deref p in
  match paramset s !! name with
  | None => ret (SCIP_PARAMETERUNKNOWN, value)
  | Some (RealParam v) => ret (SCIP_OKAY, v)
  | Some _ => ret (SCIP_PARAMETERWRONGTYPE, value)
  end.
Definition SCIPgetCharParam p name (value : ascii) : M (SCIP_RETCODE * ascii) :=
  let! s := deref p in
  match paramset s !! name with
  | None => ret (SCIP_PARAMETERUNKNOWN, value)
  | Some (CharParam v) => ret (SCIP_OKAY, v)
  | Some _ => ret (SCIP_PARAMETERWRONGTYPE, value)
  end.
(** The string getter hands out a [char*]; [None] is the null pointer. *)
Definition SCIPgetStringParam p name (value : option string)
  : M (SCIP_RETCODE * option string) :=
  let! s := deref p in
  match paramset s !! name with
  | None => ret (SCIP_PARAMETERUNKNOWN, value)
  | Some (StringParam v) => ret (SCIP_OKAY, Some v)
  | Some _ => ret (SCIP_PARAMETERWRONGTYPE, value)
  end.

End Solver.

(** ** [model.cpp] *)

(** [enum class ParamType] of [ecole/scip/model.hpp]. *)
Module ParamType.
Inductive t : Set := Bool | Int | LongInt | Real | Char | String.
#[global] Instance eq_dec : EqDecision t.
Proof. solve_decision. Defined.
End ParamType.

(** [param_t<>]: the value type that goes with a tag, read off a tagged
    value. *)
Definition param_type_of (value : SCIP_Param) : ParamType.t :=
  match value with
  | BoolParam _ => ParamType.Bool
  | IntParam _ => ParamType.Int
  | LongintParam _ => ParamType.LongInt
  | RealParam _ => ParamType.Real
  | CharParam _ => ParamType.Char
  | StringParam _ => ParamType.String
  end.

(** The views of [ecole/scip/view.hpp]: the owning instance, the array of
    entities and its length. *)
Record View (A : Type) : Type := mkView {
  view_scip : option loc;
  view_data : list A;
  view_size : Z;
}.
Arguments mkView {A} _ _ _.
Arguments view_scip {A} _.
Arguments view_data {A} _.
Arguments view_size {A} _.

Definition VarView := View SCIP_VAR.
Definition ColView := View SCIP_COL.
Definition RowView := View SCIP_ROW.

Section Model.
Context `{lib : SolverLib}.

(** [Deleter<SCIP>::operator()]. *)
Definition Deleter (scip : option loc) : M unit :=
  let! rc := SCIPfree scip in call rc.

(** What [unique_ptr<SCIP>] does with the pointer it gives up: the deleter
    runs unless the pointer is null. *)
Definition unique_ptr_release (old : option loc) : M unit :=
  match old with
  | None => ret tt
  | Some _ => Deleter old
  end.

(** [unique_ptr<SCIP> create()]. *)
Definition create : M (option loc) :=
  let! (rc, scip_raw) := SCIPcreate in
  call rc ;;
  SCIPmessagehdlrSetQuiet scip_raw true ;;
  ret scip_raw.

(** [unique_ptr<SCIP> copy(SCIP const* source)].  The mutex serialises calls
    from several threads and has no sequential effect.  When the library call
    throws, [dest] goes out of scope and its instance is freed. *)
Definition copy (source : option loc) : M (option loc) :=
  match source with
  | None => ret None
  | Some _ =>
      let! st := SCIPgetStage source in
      if decide (st = SCIP_STAGE_INIT) then create
      else
        let! dest := create in
        on_unwind (let! rc := SCIPcopy source dest in call rc)
                  (unique_ptr_release dest) ;;
        ret dest
  end.

(** [Model::get_scip_ptr]. *)
Definition get_scip_ptr (this : Model) : option loc := scip this.

(** [Model::Model()]. *)
Definition Model_new : M Model :=
  let! p := create in
  on_unwind (let! rc := SCIPincludeDefaultPlugins p in call rc)
            (unique_ptr_release p) ;;
  ret {| scip := p |}.

(** [Model::Model(unique_ptr<SCIP>&&)]. *)
Definition Model_of_ptr (p : option loc) : M Model :=
  match p with
  | Some _ => ret {| scip := p |}
  | None => throw (Exception_what "Cannot create empty model")
  end.

(** [Model::Model(Model const&)]. *)
Definition Model_copy (other : Model) : M Model :=
  let! p := copy (get_scip_ptr other) in
  ret {| scip := p |}.

(** [Model::operator=(Model const&)].  [this] and [other] are the addresses of
    the two objects.  The move assignment of [unique_ptr] takes the new
    pointer and then releases the one held before. *)
Definition Model_assign (this other : loc) : M loc :=
  (if decide (other <> this) then
     let! ms := get_models in
     match ms !! other, ms !! this with
     | Some o, Some t =>
         let! p := copy (get_scip_ptr o) in
         put_models (<[this := {| scip := p |}]> ms) ;;
         unique_ptr_release (scip t)
     | _, _ => undefined
     end
   else ret tt) ;;
  ret this.

(** [Model::operator==]. *)
Definition Model_eq (this other : Model) : bool :=
  bool_decide (scip this = scip other).

(** [Model::operator!=]. *)
Definition Model_ne (this other : Model) : bool :=
  negb (Model_eq this other).

(** [Model::read_prob]. *)
Definition read_prob (this : Model) (filename : string) : M unit :=
  let! rc := SCIPreadProb (get_scip_ptr this) filename in call rc.

(** [Model::from_file]. *)
Definition from_file (filename : string) : M Model :=
  let! model := Model_new in
  on_unwind (read_prob model filename) (unique_ptr_release (scip model)) ;;
  ret model.

(** [Model::get_param_type].  The [default:] branch of the [switch] stands
    for a tag outside the enumeration and has no counterpart here. *)
Definition get_param_type (this : Model) (name : string) : M ParamType.t :=
  let! scip_param := SCIPgetParam (get_scip_ptr this) name in
  match scip_param with
  | None => throw (make_exception SCIP_PARAMETERUNKNOWN)
  | Some param =>
      match SCIPparamGetType param with
      | SCIP_PARAMTYPE_BOOL => ret ParamType.Bool
      | SCIP_PARAMTYPE_INT => ret ParamType.Int
      | SCIP_PARAMTYPE_LONGINT => ret ParamType.LongInt
      | SCIP_PARAMTYPE_REAL => ret ParamType.Real
      | SCIP_PARAMTYPE_CHAR => ret ParamType.Char
      | SCIP_PARAMTYPE_STRING => ret ParamType.String
      end
  end.

(** *** [namespace internal] *)

(** A [const char*] is kept as the string it points to, which has no NUL
    character inside.  [std::string::c_str] yields the characters before the
    first NUL of a [std::string]. *)
Fixpoint c_str (s : string) : string :=
  match s with
  | EmptyString => EmptyString
  | String c rest =>
      if decide (c = Ascii.zero) then EmptyString else String c (c_str rest)
  end.

(** [internal::set_scip_param], one specialisation per value type. *)
Definition set_scip_param_bool (scip : option loc) name (value : bool) : M unit :=
  let! rc := SCIPsetBoolParam scip name value in call rc.
Definition set_scip_param_char (scip : option loc) name (value : ascii) : M unit :=
  let! rc := SCIPsetCharParam scip name value in call rc.
Definition set_scip_param_int (scip : option loc) name (value : Z) : M unit :=
  let! rc := SCIPsetIntParam scip name value in call rc.
Definition set_scip_param_longint (scip : option loc) name (value : Z) : M unit :=
  let! rc := SCIPsetLongintParam scip name value in call rc.
Definition set_scip_param_real (scip : option loc) name (value : SCIP_Real) : M unit :=
  let! rc := SCIPsetRealParam scip name value in call rc.
Definition set_scip_param_cstr (scip : option loc) name (value : string) : M unit :=
  let! rc := SCIPsetStringParam scip name value in call rc.
Definition set_scip_param_string (scip : option loc) name (value : string) : M unit :=
  set_scip_param_cstr scip name (c_str value).

(** [internal::get_scip_param], one specialisation per value type.  The local
    [value] is value-initialised before the call. *)
Definition get_scip_param_bool (scip : option loc) name : M bool :=
  let! (rc, value) := SCIPgetBoolParam scip name false in
  call rc ;; ret value.
Definition get_scip_param_char (scip : option loc) name : M ascii :=
  let! (rc, value) := SCIPgetCharParam scip name Ascii.zero in
  call rc ;; ret value.
Definition get_scip_param_int (scip : option loc) name : M Z :=
  let! (rc, value) := SCIPgetIntParam scip name 0 in
  call rc ;; ret value.
Definition get_scip_param_longint (scip : option loc) name : M Z :=
  let! (rc, value) := SCIPgetLongintParam scip name 0 in
  call rc ;; ret value.
Definition get_scip_param_real (scip : option loc) name : M SCIP_Real :=
  let! (rc, value) := SCIPgetRealParam scip name (S754_zero false) in
  call rc ;; ret value.
Definition get_scip_param_cstr (scip : option loc) name : M (option string) :=
  let! (rc, ptr) := SCIPgetStringParam scip name None in
  call rc ;; ret ptr.

(** [internal::Cast_SFINAE<char, const char*>::operator char]. *)
Definition Cast_char_of_cstr (val : string) : M ascii :=
  if decide (String.length val = 1%nat) then
    match val with
    | String c _ => ret c
    | EmptyString => undefined
    end
  else throw (Exception_what
    "Can only convert a string with a single character to a char").

(** The two template families as one function each, the specialisation being
    chosen by the type of the value, respectively by the requested type.  The
    value type of a string parameter is [const char*], the one type the
    getter is specialised for; the null pointer is no such value. *)
Definition set_scip_param (scip : option loc) name (value : SCIP_Param) : M unit :=
  match value with
  | BoolParam v => set_scip_param_bool scip name v
  | IntParam v => set_scip_param_int scip name v
  | LongintParam v => set_scip_param_longint scip name v
  | RealParam v => set_scip_param_real scip name v
  | CharParam v => set_scip_param_char scip name v
  | StringParam v => set_scip_param_cstr scip name v
  end.

Definition get_scip_param (scip : option loc) name (T : ParamType.t) : M SCIP_Param :=
  match T with
  | ParamType.Bool => let! v := get_scip_param_bool scip name in ret (BoolParam v)
  | ParamType.Int => let! v := get_scip_param_int scip name in ret (IntParam v)
  | ParamType.LongInt =>
      let! v := get_scip_param_longint scip name in ret (LongintParam v)
  | ParamType.Real => let! v := get_scip_param_real scip name in ret (RealParam v)
  | ParamType.Char => let! v := get_scip_param_char scip name in ret (CharParam v)
  | ParamType.String =>
      let! ptr := get_scip_param_cstr scip name in
      match ptr with
      | Some v => ret (StringParam v)
      | None => undefined
      end
  end.

(** *** Typed parameter access *)

(** Modelled from the spec: [Model::get_param_explicit<T>] and
    [Model::set_param_explicit<T>], member templates defined in
    [ecole/scip/model.hpp], which is missing from the sources.  They read and
    write the named parameter with the type [T] the caller gives, through
    [internal::get_scip_param<T>] and [internal::set_scip_param<T>]. *)
Definition get_param_explicit (this : Model) name (T : ParamType.t) : M SCIP_Param :=
  get_scip_param (get_scip_ptr this) name T.
Definition set_param_explicit (this : Model) name (value : SCIP_Param) : M unit :=
  set_scip_param (get_scip_ptr this) name value.

(** Modelled from the spec: [Model::get_param] and [Model::set_param], member
    templates defined in [ecole/scip/model.hpp], which is missing from the
    sources.  They fail with [UnknownParameter] if no parameter of that name
    exists, and with [TypeMismatch] if the stored type tag disagrees with the
    requested, respectively supplied, type. *)
Definition get_param (this : Model) name (T : ParamType.t) : M SCIP_Param :=
  let! stored := get_param_type this name in
  if decide (stored = T) then get_param_explicit this name T
  else throw TypeMismatch.
Definition set_param (this : Model) name (value : SCIP_Param) : M unit :=
  let! stored := get_param_type this name in
  if decide (stored = param_type_of value) then set_param_explicit this name value
  else throw TypeMismatch.

(** *** The seed *)

(** The instances at [param_t<ParamType::Int>] of the two explicit accessors,
    with the [int] itself as the result. *)
Definition get_param_explicit_int (this : Model) name : M Z :=
  get_scip_param_int (get_scip_ptr this) name.
Definition set_param_explicit_int (this : Model) name (value : Z) : M unit :=
  set_scip_param_int (get_scip_ptr this) name value.

(** [std::abs] on [int].  The result for [INT_MIN] is not defined by the
    language; two's complement hardware wraps around. *)
Definition std_abs (v : Z) : Z := wrap_int (Z.abs v).

(** [Model::seed() const]. *)
Definition seed_get (this : Model) : M Z :=
  get_param_explicit_int this "randomization/randomseedshift".

(** [Model::seed(param_t<ParamType::Int>)]. *)
Definition seed_set (this : Model) (seed_v : Z) : M unit :=
  set_param_explicit_int this "randomization/randomseedshift" (std_abs seed_v).

(** *** Stage and views *)

(** [Model::is_solved]. *)
Definition is_solved (this : Model) : M bool :=
  let! st := SCIPgetStage (get_scip_ptr this) in
  ret (bool_decide (st = SCIP_STAGE_SOLVED)).

(** [Model::variables]. *)
Definition variables (this : Model) : M VarView :=
  let scip_ptr := get_scip_ptr this in
  let! n := SCIPgetNVars scip_ptr in
  let n_vars := size_t_of_int n in
  let! data := SCIPgetVars scip_ptr in
  ret (mkView scip_ptr data n_vars).

(** [Model::lp_columns]. *)
Definition lp_columns (this : Model) : M ColView :=
  let scip_ptr := get_scip_ptr this in
  let! st := SCIPgetStage scip_ptr in
  if decide (st <> SCIP_STAGE_SOLVING) then
    throw (Exception_what "LP columns are only available during solving")
  else
    let! n := SCIPgetNLPCols scip_ptr in
    let n_cols := size_t_of_int n in
    let! data := SCIPgetLPCols scip_ptr in
    ret (mkView scip_ptr data n_cols).

(** [Model::lp_rows]. *)
Definition lp_rows (this : Model) : M RowView :=
  let scip_ptr := get_scip_ptr this in
  let! st := SCIPgetStage scip_ptr in
  if decide (st <> SCIP_STAGE_SOLVING) then
    throw (Exception_what "LP rows are only available during solving")
  else
    let! n := SCIPgetNLPRows scip_ptr in
    let n_rows := size_t_of_int n in
    let! data := SCIPgetLPRows scip_ptr in
    ret (mkView scip_ptr data n_rows).

(** *** Vocabulary of the properties *)

(** The address [SCIPcreate] hands out, and the instance [create] leaves
    there. *)
Definition alloc_loc (w : World) : loc := fresh (dom (scips w)).
Definition fresh_instance : SCIP := set_quiet true new_instance.

(** The library clones the instance [s] successfully. *)
Definition clone_ok (s : SCIP) : Prop :=
  fst (SCIPcopy_ s fresh_instance) = SCIP_OKAY.

(** What [copy] leaves in the new instance for a source with content [s]. *)
Definition clone_of (s : SCIP) : SCIP :=
  if decide (stage s = SCIP_STAGE_INIT) then fresh_instance
  else snd (SCIPcopy_ s fresh_instance).

(** What [from_file] does, by the return codes of the two library calls. *)
Definition from_file_result (filename : string) (w : World)
  : Outcome Model * World :=
  let p := SCIPincludeDefaultPlugins_ fresh_instance in
  let r := SCIPreadProb_ (snd p) filename in
  if decide (fst p = SCIP_OKAY) then
    if decide (fst r = SCIP_OKAY) then
      (Ok {| scip := Some (alloc_loc w) |},
       {| scips := <[alloc_loc w := snd r]> (scips w); models := models w |})
    else (Throw (make_exception (fst r)), w)
  else (Throw (make_exception (fst p)), w).

End Model.

(** A handle is live in a store when its pointer leads to an instance. *)
Definition live (this : Model) (w : World) (s : SCIP) : Prop :=
  exists l, scip this = Some l /\ scips w !! l = Some s.

(** A handle is valid when it is null (moved from) or live. *)
Definition valid (this : Model) (w : World) : Prop :=
  scip this = None \/ exists s, live this w s.

(** The store after a successful write of [value] under [name] in the
    instance at [l]. *)
Definition written (w : World) (l : loc) (s : SCIP) (name : string)
    (value : SCIP_Param) : World :=
  {| scips := <[l := set_paramset (<[name := value]> (paramset s)) s]> (scips w);
     models := models w |}.

(** The counts the solver reports fit the [int] they are returned in. *)
Definition counts_are_ints (s : SCIP) : Prop :=
  Z.of_nat (length (vars s)) <= INT_MAX
  /\ Z.of_nat (length (lprows s)) <= INT_MAX.

(** The views the extractor reads in the solving stage. *)
Definition var_view (this : Model) (s : SCIP) : VarView :=
  mkView (scip this) (vars s) (Z.of_nat (length (vars s))).
Definition row_view (this : Model) (s : SCIP) : RowView :=
  mkView (scip this) (lprows s) (Z.of_nat (length (lprows s))).

(** ** [node-bipartite.hpp] *)

(** Modelled from the spec: [utility::coo_matrix] of
    [ecole/utility/sparse-matrix.hpp], which is missing from the sources: a
    sparse matrix that stores (row, column, value) triples and the shape. *)
Record coo_matrix (A : Type) : Type := {
  values : list A;
  indices : list (nat * nat);
  coo_shape : nat * nat;
}.
Arguments values {A} _.
Arguments indices {A} _.
Arguments coo_shape {A} _.

Definition nnz {A} (m : coo_matrix A) : nat := length (values m).

(** [xt::xtensor<value_type, 2>]: the shape and the entries, row by row. *)
Record xtensor2 (A : Type) : Type := {
  shape : nat * nat;
  rows : list (list A);
}.
Arguments shape {A} _.
Arguments rows {A} _.

(** The entries agree with the shape. *)
Definition well_shaped {A} (t : xtensor2 A) : Prop :=
  length (rows t) = fst (shape t)
  /\ Forall (fun r => length r = snd (shape t)) (rows t).

(** The columns [0 .. n) and the columns from [n] on. *)
Definition columns_before {A} (n : nat) (t : xtensor2 A) : list (list A) :=
  map (take n) (rows t).
Definition columns_from {A} (n : nat) (t : xtensor2 A) : list (list A) :=
  map (drop n) (rows t).

Module NodeBipartiteObs.

Definition value_type : Set := SCIP_Real.

Definition n_static_variable_features : nat := 5.
Definition n_dynamic_variable_features : nat := 15.
Definition n_variable_features : nat :=
  n_static_variable_features + n_dynamic_variable_features.

Inductive VariableFeatures : Set :=
(* Static features *)
| objective
| is_type_binary
| is_type_integer
| is_type_implicit_integer
| is_type_continuous
(* Dynamic features *)
| has_lower_bound
| has_upper_bound
| normed_reduced_cost
| solution_value
| solution_frac
| is_solution_at_lower_bound
| is_solution_at_upper_bound
| scaled_age
| incumbent_value
| average_incumbent_value
| is_basis_lower
| is_basis_basic
| is_basis_upper
| is_basis_zero
| index.

Definition n_static_row_features : nat := 2.
Definition n_dynamic_row_features : nat := 3.
Definition n_row_features : nat :=
  n_static_row_features + n_dynamic_row_features.

Inductive RowFeatures : Set :=
(* Static features *)
| bias
| objective_cosine_similarity
(* Dynamic features *)
| is_tight
| dual_solution_value
| row_scaled_age.

Record t : Type := {
  variable_features : xtensor2 value_type;
  row_features : xtensor2 value_type;
  edge_features : coo_matrix value_type;
}.

End NodeBipartiteObs.

Module NodeBipartite.
Import NodeBipartiteObs.

(** [class NodeBipartite]. *)
Record t : Type := {
  the_cache : NodeBipartiteObs.t;
  use_cache : bool;
  cache_computed : bool;
}.

Definition empty_tensor : xtensor2 value_type := {| shape := (0%nat, 0%nat); rows := [] |}.
Definition empty_obs : NodeBipartiteObs.t :=
  {| variable_features := empty_tensor; row_features := empty_tensor;
     edge_features := {| values := []; indices := []; coo_shape := (0%nat, 0%nat) |} |}.

(** [NodeBipartite(bool cache = false)], with the default member
    initialisers. *)
Definition new (cache : bool) : t :=
  {| the_cache := empty_obs; use_cache := cache; cache_computed := false |}.

(** The columns of the two enumerations, in the order of their values. *)
Definition static_variable_columns : list VariableFeatures :=
  [objective; is_type_binary; is_type_integer; is_type_implicit_integer;
   is_type_continuous].
Definition dynamic_variable_columns : list VariableFeatures :=
  [has_lower_bound; has_upper_bound; normed_reduced_cost; solution_value;
   solution_frac; is_solution_at_lower_bound; is_solution_at_upper_bound;
   scaled_age; incumbent_value; average_incumbent_value; is_basis_lower;
   is_basis_basic; is_basis_upper; is_basis_zero; index].
Definition static_row_columns : list RowFeatures :=
  [bias; objective_cosine_similarity].
Definition dynamic_row_columns : list RowFeatures :=
  [is_tight; dual_solution_value; row_scaled_age].

(** The [double]s 0.0 and 1.0, for indicators and one-hot flags. *)
Definition zero : value_type := S754_zero false.
Definition one : value_type := S754_finite false 4503599627370496 (-52).
Definition flag (b : bool) : value_type := if b then one else zero.

(** Modelled from the spec: the feature computation, defined in
    [observation/node-bipartite.cpp], which is missing from the sources.
    Section 4.4 of the specification lists what each column holds; the
    numeric quantities are taken as the solver delivers them. *)
Definition variable_feature (v : SCIP_VAR) (f : VariableFeatures) : value_type :=
  match f with
  | objective => var_obj v
  | is_type_binary =>
      flag (match var_type v with SCIP_VARTYPE_BINARY => true | _ => false end)
  | is_type_integer =>
      flag (match var_type v with SCIP_VARTYPE_INTEGER => true | _ => false end)
  | is_type_implicit_integer =>
      flag (match var_type v with SCIP_VARTYPE_IMPLINT => true | _ => false end)
  | is_type_continuous =>
      flag (match var_type v with SCIP_VARTYPE_CONTINUOUS => true | _ => false end)
  | has_lower_bound => flag (var_has_lb v)
  | has_upper_bound => flag (var_has_ub v)
  | normed_reduced_cost => var_normed_redcost v
  | solution_value => var_sol v
  | solution_frac => var_sol_frac v
  | is_solution_at_lower_bound => flag (var_sol_at_lb v)
  | is_solution_at_upper_bound => flag (var_sol_at_ub v)
  | scaled_age => var_scaled_age v
  | incumbent_value => var_incumbent v
  | average_incumbent_value => var_avg_incumbent v
  | is_basis_lower =>
      flag (match var_basis v with SCIP_BASESTAT_LOWER => true | _ => false end)
  | is_basis_basic =>
      flag (match var_basis v with SCIP_BASESTAT_BASIC => true | _ => false end)
  | is_basis_upper =>
      flag (match var_basis v with SCIP_BASESTAT_UPPER => true | _ => false end)
  | is_basis_zero =>
      flag (match var_basis v with SCIP_BASESTAT_ZERO => true | _ => false end)
  | index => var_index v
  end.

Definition row_feature (r : SCIP_ROW) (f : RowFeatures) : value_type :=
  match f with
  | bias => row_bias r
  | objective_cosine_similarity => row_obj_cosine r
  | is_tight => flag (row_is_tight r)
  | dual_solution_value => row_dual r
  | row_scaled_age => row_age r
  end.

Definition static_variable_features (v : SCIP_VAR) : list value_type :=
  map (variable_feature v) static_variable_columns.
Definition dynamic_variable_features (v : SCIP_VAR) : list value_type :=
  map (variable_feature v) dynamic_variable_columns.
Definition static_row_features (r : SCIP_ROW) : list value_type :=
  map (row_feature r) static_row_columns.
Definition dynamic_row_features (r : SCIP_ROW) : list value_type :=
  map (row_feature r) dynamic_row_columns.

(** One edge per nonzero coefficient of a row: where it is, and its value. *)
Definition edge_indices (rs : list SCIP_ROW) : list (nat * nat) :=
  concat (imap (fun i r => map (fun e => (i, fst e)) (row_nonz r)) rs).
Definition edge_values (rs : list SCIP_ROW) : list value_type :=
  concat (map (fun r => map snd (row_nonz r)) rs).

(** The number of structural nonzeros of the relaxation. *)
Definition lp_nnz (rs : list SCIP_ROW) : nat :=
  sum_list (map (fun r => length (row_nonz r)) rs).

(** Modelled from the spec: the observation computed from scratch
    ([observation/node-bipartite.cpp] is missing from the sources). *)
Definition extract_fully (vs : VarView) (rs : RowView) : NodeBipartiteObs.t :=
  {| variable_features :=
       {| shape := (Z.to_nat (view_size vs), n_variable_features);
          rows := map (fun v => static_variable_features v
                                ++ dynamic_variable_features v) (view_data vs) |};
     row_features :=
       {| shape := (Z.to_nat (view_size rs), n_row_features);
          rows := map (fun r => static_row_features r
                                ++ dynamic_row_features r) (view_data rs) |};
     edge_features :=
       {| values := edge_values (view_data rs);
          indices := edge_indices (view_data rs);
          coo_shape := (Z.to_nat (view_size rs), Z.to_nat (view_size vs)) |} |}.

(** Modelled from the spec: the observation on a populated cache
    ([observation/node-bipartite.cpp] is missing from the sources).  The
    static columns and the edge structure are those of the cache; the dynamic
    columns and the edge values are computed from the current state. *)
Definition refresh {E} (n_static : nat) (dynamic : E -> list value_type)
    (cached : xtensor2 value_type) (es : list E) : xtensor2 value_type :=
  {| shape := shape cached;
     rows := zip_with (fun row e => take n_static row ++ dynamic e)
               (rows cached) es |}.

Definition extract_from_cache (cache : NodeBipartiteObs.t)
    (vs : VarView) (rs : RowView) : NodeBipartiteObs.t :=
  {| variable_features :=
       refresh n_static_variable_features dynamic_variable_features
         (variable_features cache) (view_data vs);
     row_features :=
       refresh n_static_row_features dynamic_row_features
         (row_features cache) (view_data rs);
     edge_features :=
       {| values := edge_values (view_data rs);
          indices := indices (edge_features cache);
          coo_shape := coo_shape (edge_features cache) |} |}.

(** Modelled from the spec: [NodeBipartite::before_reset]
    ([observation/node-bipartite.cpp] is missing from the sources).  It clears
    the flag of the cache and leaves [use_cache] alone. *)
Definition before_reset (self : t) (model : Model) : M t :=
  ret {| the_cache := the_cache self; use_cache := use_cache self;
         cache_computed := false |}.

(** Modelled from the spec: [NodeBipartite::extract]
    ([observation/node-bipartite.cpp] is missing from the sources).  The
    result is the observation, if any, and the extractor after the call. *)
Definition extract (self : t) (model : Model) (done : bool)
  : M (option NodeBipartiteObs.t * t) :=
  if done then ret (None, self)
  else
    let! vs := variables model in
    let! rs := lp_rows model in
    if use_cache self && cache_computed self then
      ret (Some (extract_from_cache (the_cache self) vs rs), self)
    else
      let obs := extract_fully vs rs in
      ret (Some obs,
           if use_cache self
           then {| the_cache := obs; use_cache := true; cache_computed := true |}
           else self).

(** The cache was filled at a state with as many variables and rows as the
    instance [s] has: its tensors have one row per entity, and every row
    reaches past the static columns. *)
Definition cache_matches (cache : NodeBipartiteObs.t) (s : SCIP) : Prop :=
  length (rows (variable_features cache)) = length (vars s)
  /\ Forall (fun r => (n_static_variable_features <= length r)%nat)
       (rows (variable_features cache))
  /\ length (rows (row_features cache)) = length (lprows s)
  /\ Forall (fun r => (n_static_row_features <= length r)%nat)
       (rows (row_features cache)).

End NodeBipartite.

(** ** An instance of the library interface

    Modelled from the spec: what the solver library does where the wrapper
    only forwards.  Registering the default plugins sets a mark; a clone takes
    over the parameters and the problem data of its source and is a loaded
    problem; the one problem file that exists holds a single binary
    variable. *)
Definition unit_var : SCIP_VAR :=
  {| var_obj := NodeBipartite.one; var_type := SCIP_VARTYPE_BINARY;
     var_has_lb := true; var_has_ub := true;
     var_normed_redcost := NodeBipartite.zero; var_sol := NodeBipartite.zero;
     var_sol_frac := NodeBipartite.zero; var_sol_at_lb := true;
     var_sol_at_ub := false; var_scaled_age := NodeBipartite.zero;
     var_incumbent := NodeBipartite.zero;
     var_avg_incumbent := NodeBipartite.zero;
     var_basis := SCIP_BASESTAT_LOWER; var_index := NodeBipartite.zero |}.

#[local] Instance reference_lib : SolverLib := {|
  core_paramset :=
    {[ "randomization/randomseedshift"%string := IntParam 0 ]};
  SCIPincludeDefaultPlugins_ s :=
    (SCIP_OKAY,
     {| stage := stage s; quiet := quiet s; default_plugins := true;
        paramset := paramset s; vars := vars s; lpcols := lpcols s;
        lprows := lprows s |});
  SCIPcopy_ source target :=
    (SCIP_OKAY,
     {| stage := SCIP_STAGE_PROBLEM; quiet := quiet target;
        default_plugins := default_plugins source;
        paramset := paramset source; vars := vars source;
        lpcols := []; lprows := [] |});
  SCIPreadProb_ s filename :=
    if decide (filename = "unit.lp"%string)
    then (SCIP_OKAY,
          {| stage := SCIP_STAGE_PROBLEM; quiet := quiet s;
             default_plugins := default_plugins s; paramset := paramset s;
             vars := [unit_var]; lpcols := []; lprows := [] |})
    else (SCIP_NOFILE, s);
|}.

(** ** Sample instances and stores *)

Definition continuous_var : SCIP_VAR :=
  {| var_obj := NodeBipartite.zero; var_type := SCIP_VARTYPE_CONTINUOUS;
     var_has_lb := true; var_has_ub := false;
     var_normed_redcost := NodeBipartite.one; var_sol := NodeBipartite.one;
     var_sol_frac := NodeBipartite.zero; var_sol_at_lb := false;
     var_sol_at_ub := false; var_scaled_age := NodeBipartite.zero;
     var_incumbent := NodeBipartite.one;
     var_avg_incumbent := NodeBipartite.one;
     var_basis := SCIP_BASESTAT_BASIC; var_index := NodeBipartite.one |}.

(** [continuous_var] later in the search: another solution value and another
    objective coefficient. *)
Definition continuous_var_later : SCIP_VAR :=
  {| var_obj := NodeBipartite.one; var_type := SCIP_VARTYPE_CONTINUOUS;
     var_has_lb := true; var_has_ub := false;
     var_normed_redcost := NodeBipartite.one; var_sol := NodeBipartite.zero;
     var_sol_frac := NodeBipartite.zero; var_sol_at_lb := true;
     var_sol_at_ub := false; var_scaled_age := NodeBipartite.one;
     var_incumbent := NodeBipartite.one;
     var_avg_incumbent := NodeBipartite.one;
     var_basis := SCIP_BASESTAT_LOWER; var_index := NodeBipartite.one |}.

Definition sample_row (tight : bool) (nonz : list (nat * SCIP_Real)) : SCIP_ROW :=
  {| row_bias := NodeBipartite.one; row_obj_cosine := NodeBipartite.zero;
     row_is_tight := tight; row_dual := NodeBipartite.zero;
     row_age := NodeBipartite.zero; row_nonz := nonz |}.

Definition sample_paramset : gmap string SCIP_Param :=
  {[ "randomization/randomseedshift"%string := IntParam 0;
     "limits/time"%string := RealParam NodeBipartite.one;
     "display/verblevel"%string := IntParam 4 ]}.

Definition solving_instance : SCIP :=
  {| stage := SCIP_STAGE_SOLVING; quiet := true; default_plugins := true;
     paramset := sample_paramset;
     vars := [unit_var; continuous_var];
     lpcols := [{| col_var := 0 |}; {| col_var := 1 |}];
     lprows := [sample_row true [(0%nat, NodeBipartite.one); (1%nat, NodeBipartite.one)];
                sample_row false [(1%nat, NodeBipartite.one)];
                sample_row false []] |}.

Definition solving_instance_later : SCIP :=
  {| stage := SCIP_STAGE_SOLVING; quiet := true; default_plugins := true;
     paramset := sample_paramset;
     vars := [unit_var; continuous_var_later];
     lpcols := [{| col_var := 0 |}; {| col_var := 1 |}];
     lprows := [sample_row false [(0%nat, NodeBipartite.one); (1%nat, NodeBipartite.one)];
                sample_row true [(1%nat, NodeBipartite.one)];
                sample_row false []] |}.

Definition loaded_instance : SCIP :=
  {| stage := SCIP_STAGE_PROBLEM; quiet := true; default_plugins := true;
     paramset := sample_paramset; vars := [unit_var; continuous_var];
     lpcols := []; lprows := [] |}.

Definition sample_model : Model := {| scip := Some 1%positive |}.
Definition other_model : Model := {| scip := Some 2%positive |}.

Definition empty_world : World := {| scips := ∅; models := ∅ |}.
Definition solving_world : World :=
  {| scips := {[ 1%positive := solving_instance ]};
     models := {[ 1%positive := sample_model ]} |}.
Definition solving_world_later : World :=
  {| scips := {[ 1%positive := solving_instance_later ]};
     models := {[ 1%positive := sample_model ]} |}.
Definition loaded_world : World :=
  {| scips := {[ 1%positive := loaded_instance ]};
     models := {[ 1%positive := sample_model ]} |}.
Definition two_handles_world : World :=
  {| scips := {[ 1%positive := loaded_instance; 2%positive := solving_instance ]};
     models := {[ 1%positive := sample_model; 2%positive := other_model ]} |}.

(** ** Tactics that run a computation *)

(** Unfolds the monad and the library calls that only read an instance. *)
Ltac run_M :=
  cbv beta iota delta
    [bind ret throw undefined get_scips put_scips get_models put_models
     deref call SCIPgetStage SCIPgetNVars SCIPgetVars SCIPgetNLPCols
     SCIPgetLPCols SCIPgetNLPRows SCIPgetLPRows SCIPgetParam get_scip_ptr].

Tactic Notation "run_M" "in" hyp(H) :=
  cbv beta iota delta
    [bind ret throw undefined get_scips put_scips get_models put_models
     deref call SCIPgetStage SCIPgetNVars SCIPgetVars SCIPgetNLPCols
     SCIPgetLPCols SCIPgetNLPRows SCIPgetLPRows SCIPgetParam get_scip_ptr] in H.

(** The same, looking up the instance through the hypothesis [H]. *)
Ltac run_live H := repeat (progress (run_M; rewrite ?H; cbv beta iota)).

(** The same for computations that write: a location just written is read
    back. *)
Ltac run_store :=
  repeat (progress (run_M; cbn [scips models scip fst snd];
                    rewrite ?lookup_insert_eq; cbv beta iota)).

(** ** The remaining members of [model.cpp] *)



(** [SCIP_PARAMSETTING] of [scip/type_paramset.h]. *)
Inductive SCIP_PARAMSETTING : Set :=
| SCIP_PARAMSETTING_DEFAULT
| SCIP_PARAMSETTING_AGGRESSIVE
| SCIP_PARAMSETTING_FAST
| SCIP_PARAMSETTING_OFF.

(** The library calls behind the members that drive and configure the
    search.  As in [SolverLib], what they do to an instance is left open. *)
Class SolverControl : Type := {
  SCIPsolve_ : SCIP -> SCIP_RETCODE * SCIP;
  SCIPinterruptSolve_ : SCIP -> SCIP_RETCODE * SCIP;
  SCIPsetPresolving_ : SCIP -> SCIP_PARAMSETTING -> bool -> SCIP_RETCODE * SCIP;
  SCIPsetSeparating_ : SCIP -> SCIP_PARAMSETTING -> bool -> SCIP_RETCODE * SCIP;
}.

Section Control.
Context `{ctl : SolverControl}.

Definition SCIPsolve (p : option loc) : M SCIP_RETCODE :=
  update p SCIPsolve_.
Definition SCIPinterruptSolve (p : option loc) : M SCIP_RETCODE :=
  update p SCIPinterruptSolve_.
Definition SCIPsetPresolving (p : option loc) (setting : SCIP_PARAMSETTING)
    (q : bool) : M SCIP_RETCODE :=
  update p (fun s => SCIPsetPresolving_ s setting q).
Definition SCIPsetSeparating (p : option loc) (setting : SCIP_PARAMSETTING)
    (q : bool) : M SCIP_RETCODE :=
  update p (fun s => SCIPsetSeparating_ s setting q).

(** [Model::solve]. *)
Definition solve (this : Model) : M unit :=
  let! rc := SCIPsolve (get_scip_ptr this) in call rc.

(** [Model::interrupt_solve]. *)
Definition interrupt_solve (this : Model) : M unit :=
  let! rc := SCIPinterruptSolve (get_scip_ptr this) in call rc.

(** [Model::disable_presolve]. *)
Definition disable_presolve (this : Model) : M unit :=
  let! rc := SCIPsetPresolving (get_scip_ptr this) SCIP_PARAMSETTING_OFF true in
  call rc.

(** [Model::disable_cuts]. *)
Definition disable_cuts (this : Model) : M unit :=
  let! rc := SCIPsetSeparating (get_scip_ptr this) SCIP_PARAMSETTING_OFF true in
  call rc.

End Control.

(** The members of [class Model] that hand one call to the library and throw
    its return code: what each does to the instance of the handle. *)
Inductive forwarding_member `{lib : SolverLib} `{ctl : SolverControl}
    (this : Model) : M unit -> (SCIP -> SCIP_RETCODE * SCIP) -> Prop :=
| forwards_solve : forwarding_member this (solve this) SCIPsolve_
| forwards_interrupt_solve :
    forwarding_member this (interrupt_solve this) SCIPinterruptSolve_
| forwards_disable_presolve :
    forwarding_member this (disable_presolve this)
      (fun s => SCIPsetPresolving_ s SCIP_PARAMSETTING_OFF true)
| forwards_disable_cuts :
    forwarding_member this (disable_cuts this)
      (fun s => SCIPsetSeparating_ s SCIP_PARAMSETTING_OFF true)
| forwards_read_prob filename :
    forwarding_member this (read_prob this filename)
      (fun s => SCIPreadProb_ s filename).

(** The store in which the instance at [l] holds [s]. *)
Definition with_instance (w : World) (l : loc) (s : SCIP) : World :=
  {| scips := <[l := s]> (scips w); models := models w |}.

(** The store without the instance at [l]. *)
Definition without_instance (w : World) (l : loc) : World :=
  {| scips := delete l (scips w); models := models w |}.

(** The null handle, as a moved-from [Model] is. *)
Definition null_model : Model := {| scip := None |}.

(** A string has no NUL character inside. *)
Definition NUL_free (v : string) : Prop :=
  forall c, In c (list_ascii_of_string v) -> c <> Ascii.zero.

(** ** The column enumerations of [node-bipartite.hpp] *)

(** The values of [enum struct VariableFeatures : std::size_t]: [objective]
    is 0, and each enumerator after it is one more than the one before. *)
Definition VariableFeatures_value (f : NodeBipartiteObs.VariableFeatures) : nat :=
  match f with
  | NodeBipartiteObs.objective => 0
  | NodeBipartiteObs.is_type_binary => 1
  | NodeBipartiteObs.is_type_integer => 2
  | NodeBipartiteObs.is_type_implicit_integer => 3
  | NodeBipartiteObs.is_type_continuous => 4
  | NodeBipartiteObs.has_lower_bound => 5
  | NodeBipartiteObs.has_upper_bound => 6
  | NodeBipartiteObs.normed_reduced_cost => 7
  | NodeBipartiteObs.solution_value => 8
  | NodeBipartiteObs.solution_frac => 9
  | NodeBipartiteObs.is_solution_at_lower_bound => 10
  | NodeBipartiteObs.is_solution_at_upper_bound => 11
  | NodeBipartiteObs.scaled_age => 12
  | NodeBipartiteObs.incumbent_value => 13
  | NodeBipartiteObs.average_incumbent_value => 14
  | NodeBipartiteObs.is_basis_lower => 15
  | NodeBipartiteObs.is_basis_basic => 16
  | NodeBipartiteObs.is_basis_upper => 17
  | NodeBipartiteObs.is_basis_zero => 18
  | NodeBipartiteObs.index => 19
  end%nat.

(** The values of [enum struct RowFeatures : std::size_t]. *)
Definition RowFeatures_value (f : NodeBipartiteObs.RowFeatures) : nat :=
  match f with
  | NodeBipartiteObs.bias => 0
  | NodeBipartiteObs.objective_cosine_similarity => 1
  | NodeBipartiteObs.is_tight => 2
  | NodeBipartiteObs.dual_solution_value => 3
  | NodeBipartiteObs.row_scaled_age => 4
  end%nat.

(** ** Vocabulary for the cache of the extractor *)

(** The two states have as many variables, as many rows and as many
    structural nonzeros. *)
Definition same_counts (s s' : SCIP) : Prop :=
  length (vars s') = length (vars s)
  /\ length (lprows s') = length (lprows s)
  /\ NodeBipartite.lp_nnz (lprows s') = NodeBipartite.lp_nnz (lprows s).

(** The cache has the form of an observation of the state [s]: besides
    [cache_matches], its tensors carry the shapes of [s] and its edge
    structure has one index pair per structural nonzero of [s]. *)
Definition cache_fits (cache : NodeBipartiteObs.t) (s : SCIP) : Prop :=
  NodeBipartite.cache_matches cache s
  /\ shape (NodeBipartiteObs.variable_features cache)
     = (length (vars s), NodeBipartiteObs.n_variable_features)
  /\ shape (NodeBipartiteObs.row_features cache)
     = (length (lprows s), NodeBipartiteObs.n_row_features)
  /\ coo_shape (NodeBipartiteObs.edge_features cache)
     = (length (lprows s), length (vars s))
  /\ length (indices (NodeBipartiteObs.edge_features cache))
     = NodeBipartite.lp_nnz (lprows s).

(** The extractor is in step with the state [s]: if it is going to answer
    from its cache, the cache has the form of an observation of [s].  An
    extractor without caching, or whose cache is not populated, is in step
    with every state. *)
Definition cache_in_step (self : NodeBipartite.t) (s : SCIP) : Prop :=
  NodeBipartite.use_cache self = true ->
  NodeBipartite.cache_computed self = true ->
  cache_fits (NodeBipartite.the_cache self) s.

(** ** Further sample data *)

(** A library in which registering the plugins and reading a problem work as
    in [reference_lib], and cloning is refused. *)
Definition refusing_lib : SolverLib := {|
  core_paramset := core_paramset (SolverLib := reference_lib);
  SCIPincludeDefaultPlugins_ :=
    SCIPincludeDefaultPlugins_ (SolverLib := reference_lib);
  SCIPcopy_ source target := (SCIP_INVALIDCALL, target);
  SCIPreadProb_ := SCIPreadProb_ (SolverLib := reference_lib);
|}.


(** Solving is refused before a problem is there and otherwise ends in the
    solved stage; the other calls succeed and leave the instance alone. *)
#[local] Instance reference_control : SolverControl := {|
  SCIPsolve_ s :=
    if decide (stage s = SCIP_STAGE_INIT) then (SCIP_INVALIDCALL, s)
    else (SCIP_OKAY,
          {| stage := SCIP_STAGE_SOLVED; quiet := quiet s;
             default_plugins := default_plugins s; paramset := paramset s;
             vars := vars s; lpcols := []; lprows := [] |});
  SCIPinterruptSolve_ s := (SCIP_OKAY, s);
  SCIPsetPresolving_ s _ _ := (SCIP_OKAY, s);
  SCIPsetSeparating_ s _ _ := (SCIP_OKAY, s);
|}.

Definition solved_instance : SCIP :=
  {| stage := SCIP_STAGE_SOLVED; quiet := true; default_plugins := true;
     paramset := sample_paramset; vars := [unit_var; continuous_var];
     lpcols := []; lprows := [] |}.

Definition solved_world : World :=
  {| scips := {[ 1%positive := solved_instance ]};
     models := {[ 1%positive := sample_model ]} |}.

(** An instance on which no problem was loaded, with a seed parameter. *)
Definition init_instance : SCIP :=
  {| stage := SCIP_STAGE_INIT; quiet := true; default_plugins := true;
     paramset := sample_paramset; vars := []; lpcols := []; lprows := [] |}.

Definition init_world : World :=
  {| scips := {[ 1%positive := init_instance ]};
     models := {[ 1%positive := sample_model ]} |}.

(** Two handle objects, the second one moved from. *)
Definition null_source_world : World :=
  {| scips := {[ 1%positive := loaded_instance ]};
     models := {[ 1%positive := sample_model; 2%positive := null_model ]} |}.

Definition string_instance : SCIP :=
  {| stage := SCIP_STAGE_PROBLEM; quiet := true; default_plugins := true;
     paramset := {[ "visual/vbcfilename"%string := StringParam "-" ]};
     vars := []; lpcols := []; lprows := [] |}.

Definition string_world : World :=
  {| scips := {[ 1%positive := string_instance ]};
     models := {[ 1%positive := sample_model ]} |}.

(** [solving_instance] after a row was added to the relaxation. *)
Definition solving_instance_more_rows : SCIP :=
  {| stage := SCIP_STAGE_SOLVING; quiet := true; default_plugins := true;
     paramset := sample_paramset;
     vars := [unit_var; continuous_var];
     lpcols := [{| col_var := 0 |}; {| col_var := 1 |}];
     lprows := [sample_row true [(0%nat, NodeBipartite.one); (1%nat, NodeBipartite.one)];
                sample_row false [(1%nat, NodeBipartite.one)];
                sample_row false [];
                sample_row true [(0%nat, NodeBipartite.one)]] |}.

Definition solving_world_more_rows : World :=
  {| scips := {[ 1%positive := solving_instance_more_rows ]};
     models := {[ 1%positive := sample_model ]} |}.

(** * Properties *)

Lemma size_t_of_count (n : nat) :
  Z.of_nat n <= INT_MAX -> size_t_of_int (Z.of_nat n) = Z.of_nat n.
Proof.
  unfold INT_MAX, size_t_of_int. intros H.
  apply Z.mod_small. split; [lia|].
  eapply Z.le_lt_trans; [exact H|]. reflexivity.
Qed.

(** ** Views of the relaxation *)

(** C1. On a live handle whose instance is not in the solving stage,
    [lp_columns] and [lp_rows] throw the stage violation and leave the store
    as it is.  In the solving stage they return a view whose length is the
    count the solver reports (an [int]), over the solver's array of that many
    entities. *)
Theorem lp_views_only_while_solving (this : Model) (w : World) (s : SCIP) :
  live this w s ->
  (stage s <> SCIP_STAGE_SOLVING ->
     (exists e, lp_columns this w = (Throw e, w) /\ StageViolation e)
     /\ (exists e, lp_rows this w = (Throw e, w) /\ StageViolation e))
  /\ (stage s = SCIP_STAGE_SOLVING ->
      (forall n, SCIPgetNLPCols (scip this) w = (Ok n, w) -> n <= INT_MAX ->
         exists v, lp_columns this w = (Ok v, w)
                   /\ view_size v = n
                   /\ Z.of_nat (length (view_data v)) = n)
      /\ (forall n, SCIPgetNLPRows (scip this) w = (Ok n, w) -> n <= INT_MAX ->
         exists v, lp_rows this w = (Ok v, w)
                   /\ view_size v = n
                   /\ Z.of_nat (length (view_data v)) = n)).
Proof.
  intros (l & Hp & Hl). split; intros Hst.
  - split; eexists; (split; [|unfold StageViolation]).
    + unfold lp_columns. run_M. rewrite Hp, Hl.
      by destruct (decide _).
    + by left.
    + unfold lp_rows. run_M. rewrite Hp, Hl.
      by destruct (decide _).
    + by right.
  - rewrite Hp. split; intros n Hn Hmax; run_M in Hn; rewrite Hl in Hn;
      injection Hn as <-; eexists.
    + unfold lp_columns. run_M. rewrite Hp, Hl.
      destruct (decide _) as [?|_]; [done|]. run_live Hl.
      split; [reflexivity|]. simpl. split; [|done].
      by apply size_t_of_count.
    + unfold lp_rows. run_M. rewrite Hp, Hl.
      destruct (decide _) as [?|_]; [done|]. run_live Hl.
      split; [reflexivity|]. simpl. split; [|done].
      by apply size_t_of_count.
Qed.

Lemma lp_views_only_while_solving_witness :
  live sample_model solving_world solving_instance
  /\ (exists v, lp_columns sample_model solving_world = (Ok v, solving_world)
                /\ view_size v = 2)
  /\ (exists v, lp_rows sample_model solving_world = (Ok v, solving_world)
                /\ view_size v = 3)
  /\ live sample_model loaded_world loaded_instance
  /\ (exists e, lp_rows sample_model loaded_world = (Throw e, loaded_world)
                /\ StageViolation e).
Proof.
  assert (L : live sample_model solving_world solving_instance)
    by (exists 1%positive; split; reflexivity).
  assert (L' : live sample_model loaded_world loaded_instance)
    by (exists 1%positive; split; reflexivity).
  destruct (lp_views_only_while_solving _ _ _ L) as [_ H].
  destruct (H eq_refl) as [Hc Hr].
  destruct (Hc 2) as (vc & ? & ? & _); [reflexivity | unfold INT_MAX; lia |].
  destruct (Hr 3) as (vr & ? & ? & _); [reflexivity | unfold INT_MAX; lia |].
  destruct (lp_views_only_while_solving _ _ _ L') as [H' _].
  destruct H' as [_ Hrows]; [discriminate|].
  repeat split; eauto.
Defined.

Section ModelProperties.
Context `{lib : SolverLib}.

Lemma alloc_loc_fresh (w : World) : scips w !! alloc_loc w = None.
Proof. unfold alloc_loc. apply not_elem_of_dom. apply is_fresh. Qed.

Lemma create_run (w : World) :
  create w =
  (Ok (Some (alloc_loc w)),
   {| scips := <[alloc_loc w := fresh_instance]> (scips w);
      models := models w |}).
Proof.
  unfold create, SCIPcreate, SCIPmessagehdlrSetQuiet, assign. run_store.
  rewrite insert_insert_eq. reflexivity.
Qed.

Lemma world_eta (w : World) : {| scips := scips w; models := models w |} = w.
Proof. by destruct w. Qed.

Lemma live_not_alloc (w : World) (l : loc) (s : SCIP) :
  scips w !! l = Some s -> alloc_loc w <> l.
Proof. intros Hl Heq. rewrite <- Heq, alloc_loc_fresh in Hl. discriminate. Qed.

Lemma copy_clone_run (w : World) (l : loc) (s : SCIP) :
  scips w !! l = Some s -> stage s <> SCIP_STAGE_INIT ->
  copy (Some l) w =
  if decide (fst (SCIPcopy_ s fresh_instance) = SCIP_OKAY)
  then (Ok (Some (alloc_loc w)),
        {| scips := <[alloc_loc w := snd (SCIPcopy_ s fresh_instance)]> (scips w);
           models := models w |})
  else (Throw (make_exception (fst (SCIPcopy_ s fresh_instance))), w).
Proof.
  intros Hl Hst. pose proof (live_not_alloc _ _ _ Hl) as Hne.
  unfold copy. run_live Hl.
  destruct (decide (stage s = _)) as [?|_]; [done|].
  rewrite create_run.
  unfold on_unwind, SCIPcopy, update, assign, unique_ptr_release, Deleter,
    SCIPfree.
  run_M. cbn [scips models]. rewrite (lookup_insert_ne _ _ _ _ Hne), Hl.
  run_store. rewrite insert_insert_eq.
  destruct (SCIPcopy_ s fresh_instance) as [rc d]. cbn [fst snd].
  destruct (decide (rc = SCIP_OKAY)) as [->|Hrc]; [reflexivity|].
  destruct rc; try done; run_store;
    rewrite (delete_insert_id _ _ _ (alloc_loc_fresh w)); by rewrite world_eta.
Qed.

Lemma copy_init_run (w : World) (l : loc) (s : SCIP) :
  scips w !! l = Some s -> stage s = SCIP_STAGE_INIT ->
  copy (Some l) w = create w.
Proof.
  intros Hl Hst. unfold copy. run_live Hl.
  by destruct (decide (stage s = _)).
Qed.

(** Whenever the library does its part, [copy] puts [clone_of] the source at
    the next free address. *)
Lemma copy_run (w : World) (l : loc) (s : SCIP) :
  scips w !! l = Some s ->
  stage s = SCIP_STAGE_INIT \/ clone_ok s ->
  copy (Some l) w =
  (Ok (Some (alloc_loc w)),
   {| scips := <[alloc_loc w := clone_of s]> (scips w); models := models w |}).
Proof.
  intros Hl Hok. unfold clone_of.
  destruct (decide (stage s = SCIP_STAGE_INIT)) as [Hst|Hst].
  - by rewrite (copy_init_run _ _ _ Hl Hst), create_run.
  - destruct Hok as [?|Hok]; [done|].
    rewrite (copy_clone_run _ _ _ Hl Hst).
    unfold clone_ok in Hok. by destruct (decide _).
Qed.

(** ** Copying an instance *)

(** C6. [copy] of the null pointer is the null pointer and changes nothing.
    For a source in the stage [SCIP_STAGE_INIT] it is [create()]: a new
    default instance, whatever the source holds.  In every other stage the
    result is a new instance at an address that was free, holding what the
    library's clone operation builds from the source, and the source stays
    as it was; if the library's clone operation fails, its return code is
    thrown and the store is as before. *)
Theorem copy_cases (source : option loc) (w : World) :
  (source = None -> copy source w = (Ok None, w))
  /\ (forall l s, source = Some l -> scips w !! l = Some s ->
        scips w !! alloc_loc w = None /\ alloc_loc w <> l
        /\ (stage s = SCIP_STAGE_INIT ->
             copy source w = create w
             /\ copy source w =
                (Ok (Some (alloc_loc w)),
                 {| scips := <[alloc_loc w := fresh_instance]> (scips w);
                    models := models w |}))
        /\ (stage s <> SCIP_STAGE_INIT -> clone_ok s ->
             exists w',
               copy source w = (Ok (Some (alloc_loc w)), w')
               /\ scips w' !! alloc_loc w = Some (snd (SCIPcopy_ s fresh_instance))
               /\ scips w' !! l = Some s
               /\ (forall l', l' <> alloc_loc w -> scips w' !! l' = scips w !! l')
               /\ models w' = models w)
        /\ (stage s <> SCIP_STAGE_INIT -> ~ clone_ok s ->
             copy source w =
             (Throw (make_exception (fst (SCIPcopy_ s fresh_instance))), w))).
Proof.
  split; [by intros ->|].
  intros l s -> Hl. pose proof (live_not_alloc _ _ _ Hl) as Hne.
  split; [apply alloc_loc_fresh|]. split; [done|].
  split; [|split].
  - intros Hst. rewrite (copy_init_run _ _ _ Hl Hst), create_run. done.
  - intros Hst Hok. eexists.
    rewrite (copy_clone_run _ _ _ Hl Hst). unfold clone_ok in Hok.
    destruct (decide _) as [_|?]; [|done].
    split; [reflexivity|]. cbn [scips models].
    rewrite lookup_insert_eq, (lookup_insert_ne _ _ _ _ Hne).
    repeat split; try done.
    intros l' Hl'. by rewrite lookup_insert_ne.
  - intros Hst Hok. rewrite (copy_clone_run _ _ _ Hl Hst).
    unfold clone_ok in Hok. by destruct (decide _).
Qed.

(** ** Building handles *)

Lemma Model_copy_run (h : Model) (w : World) (s : SCIP) :
  live h w s ->
  stage s = SCIP_STAGE_INIT \/ clone_ok s ->
  Model_copy h w =
  (Ok {| scip := Some (alloc_loc w) |},
   {| scips := <[alloc_loc w := clone_of s]> (scips w); models := models w |}).
Proof.
  intros (l & Hp & Hl) Hok. unfold Model_copy, get_scip_ptr. rewrite Hp.
  unfold bind at 1. by rewrite (copy_run _ _ _ Hl Hok).
Qed.


Lemma from_file_run (filename : string) (w : World) :
  from_file filename w = from_file_result filename w.
Proof.
  unfold from_file, from_file_result, Model_new, read_prob.
  unfold bind at 1. unfold bind at 1. rewrite create_run.
  unfold on_unwind, SCIPincludeDefaultPlugins, SCIPreadProb, update, assign,
    unique_ptr_release, Deleter, SCIPfree.
  run_store. rewrite insert_insert_eq.
  destruct (SCIPincludeDefaultPlugins_ fresh_instance) as [rc p].
  cbn [fst snd].
  destruct (decide (rc = SCIP_OKAY)) as [->|Hrc].
  - run_store. rewrite insert_insert_eq.
    destruct (SCIPreadProb_ p filename) as [rc' r]. cbn [fst snd].
    destruct (decide (rc' = SCIP_OKAY)) as [->|Hrc']; [reflexivity|].
    destruct rc'; try done; run_store;
      rewrite (delete_insert_id _ _ _ (alloc_loc_fresh w));
      by rewrite world_eta.
  - destruct rc; try done; run_store;
      rewrite (delete_insert_id _ _ _ (alloc_loc_fresh w));
      by rewrite world_eta.
Qed.

Lemma Model_eq_spec (a b : Model) : Model_eq a b = true <-> scip a = scip b.
Proof. unfold Model_eq. apply bool_decide_eq_true. Qed.

(** ** Equality of handles *)

(** C5. [operator==] holds exactly when the two handles hold the same
    pointer, that is the same solver instance.  The copy of a live handle is
    a handle on another instance and so is not equal to the original (here
    under the proviso that the library succeeds in cloning, without which the
    copy constructor throws).  Two handles built one after the other from the
    same problem file hold instances with the same content and are not
    equal. *)
Theorem Model_eq_is_identity :
  (forall a b : Model, Model_eq a b = true <-> scip a = scip b)
  /\ (forall (h : Model) (w : World) (s : SCIP),
        live h w s ->
        stage s = SCIP_STAGE_INIT \/ clone_ok s ->
        exists h' w',
          Model_copy h w = (Ok h', w')
          /\ Model_eq h' h = false /\ Model_ne h' h = true
          /\ live h w' s /\ live h' w' (clone_of s))
  /\ (forall (filename : string) (w w1 w2 : World) (h1 h2 : Model),
        from_file filename w = (Ok h1, w1) ->
        from_file filename w1 = (Ok h2, w2) ->
        Model_eq h1 h2 = false
        /\ exists s, live h1 w2 s /\ live h2 w2 s).
Proof.
  split; [exact Model_eq_spec|]. split.
  - intros h w s Hlive Hok. destruct (Hlive) as (l & Hp & Hl).
    pose proof (live_not_alloc _ _ _ Hl) as Hne.
    eexists _, _. split; [exact (Model_copy_run _ _ _ Hlive Hok)|].
    assert (Hneq : Model_eq {| scip := Some (alloc_loc w) |} h = false).
    { unfold Model_eq. apply bool_decide_eq_false. cbn. rewrite Hp.
      congruence. }
    split; [done|]. split; [unfold Model_ne; by rewrite Hneq|]. split.
    + exists l. split; [done|]. cbn. by rewrite lookup_insert_ne.
    + exists (alloc_loc w). split; [done|]. cbn. by rewrite lookup_insert_eq.
  - intros filename w w1 w2 h1 h2. rewrite !from_file_run.
    unfold from_file_result.
    destruct (decide (fst _ = _)) as [_|?]; [|done].
    destruct (decide (fst _ = _)) as [_|?]; [|done].
    intros [= <- <-] [= <- <-]. cbn [scips models].
    set (s := snd (SCIPreadProb_ _ filename)).
    assert (Hne : alloc_loc {| scips := <[alloc_loc w := s]> (scips w);
                               models := models w |} <> alloc_loc w).
    { eapply live_not_alloc. cbn. apply lookup_insert_eq. }
    split.
    + unfold Model_eq. apply bool_decide_eq_false. cbn. congruence.
    + exists s. split; eexists; (split; [reflexivity|]); cbn.
      * by rewrite lookup_insert_ne, lookup_insert_eq.
      * by rewrite lookup_insert_eq.
Qed.

(** ** Assignment of handles *)

(** C10. Assigning a handle to itself returns at once: the store is
    unchanged, so the handle holds the instance it held and is equal to what
    it was.  Assigning from another object that holds a live instance (which
    [this] does not share, ownership being exclusive) makes [this] hold a new
    instance, built by [copy] from the source's; the instance held before is
    freed, and the source and its instance stay as they were. *)
Theorem Model_assign_cases (this other : loc) (w : World) :
  (other = this ->
     Model_assign this other w = (Ok this, w)
     /\ forall m, models w !! this = Some m -> Model_eq m m = true)
  /\ (forall (t o : Model) (s : SCIP),
        other <> this ->
        models w !! this = Some t -> models w !! other = Some o ->
        valid t w -> live o w s -> scip t <> scip o ->
        stage s = SCIP_STAGE_INIT \/ clone_ok s ->
        exists w',
          Model_assign this other w = (Ok this, w')
          /\ scips w !! alloc_loc w = None
          /\ models w' !! this = Some {| scip := Some (alloc_loc w) |}
          /\ scips w' !! alloc_loc w = Some (clone_of s)
          /\ models w' !! other = Some o
          /\ live o w' s
          /\ (forall lt, scip t = Some lt -> scips w' !! lt = None)).
Proof.
  split.
  - intros ->. split.
    + unfold Model_assign. by destruct (decide (this <> this)).
    + intros m _. by apply Model_eq_spec.
  - intros t o s Hne Ht Ho Hvalid (lo & Hpo & Hlo) Hshare Hok.
    pose proof (live_not_alloc _ _ _ Hlo) as Hfresh.
    unfold Model_assign. destruct (decide (other <> this)) as [_|?]; [|done].
    run_M. rewrite Ho, Ht, Hpo, (copy_run _ _ _ Hlo Hok).
    destruct Hvalid as [Hnull|(st & lt & Hpt & Hlt)].
    + rewrite Hnull. eexists. split; [reflexivity|]. cbn [scips models].
      split; [apply alloc_loc_fresh|].
      split; [apply lookup_insert_eq|].
      split; [apply lookup_insert_eq|].
      split; [by rewrite lookup_insert_ne|].
      split; [|congruence].
      exists lo. split; [done|]. cbn [scips]. by rewrite lookup_insert_ne.
    + pose proof (live_not_alloc _ _ _ Hlt) as Hfresh'.
      assert (lt <> lo) by congruence.
      rewrite Hpt. unfold unique_ptr_release, Deleter, SCIPfree.
      run_M. cbn [scips models].
      rewrite (lookup_insert_ne _ _ _ _ Hfresh'), Hlt.
      eexists. split; [reflexivity|]. cbn [scips models].
      split; [apply alloc_loc_fresh|].
      split; [apply lookup_insert_eq|].
      split; [by rewrite lookup_delete_ne, lookup_insert_eq|].
      split; [by rewrite lookup_insert_ne|].
      split.
      * exists lo. split; [done|]. cbn [scips].
        by rewrite lookup_delete_ne, lookup_insert_ne.
      * intros ? [= <-]. apply lookup_delete_eq.
Qed.

End ModelProperties.

(** *** The properties above on the sample stores *)

Lemma copy_cases_witness :
  copy None loaded_world = (Ok None, loaded_world)
  /\ scips loaded_world !! 1%positive = Some loaded_instance
  /\ stage loaded_instance <> SCIP_STAGE_INIT
  /\ clone_ok loaded_instance
  /\ exists w',
       copy (Some 1%positive) loaded_world
       = (Ok (Some (alloc_loc loaded_world)), w')
       /\ scips w' !! 1%positive = Some loaded_instance.
Proof.
  destruct (copy_cases None loaded_world) as [H0 _].
  destruct (copy_cases (Some 1%positive) loaded_world) as [_ H1].
  destruct (H1 1%positive loaded_instance eq_refl eq_refl)
    as (_ & _ & _ & Hc & _).
  assert (Hst : stage loaded_instance <> SCIP_STAGE_INIT) by discriminate.
  assert (Hok : clone_ok loaded_instance) by reflexivity.
  destruct (Hc Hst Hok) as (w' & Hw & _ & Hs & _).
  split; [exact (H0 eq_refl)|]. split; [reflexivity|]. eauto.
Defined.

Lemma Model_eq_is_identity_witness :
  live sample_model loaded_world loaded_instance
  /\ clone_ok loaded_instance
  /\ (exists h' w',
        Model_copy sample_model loaded_world = (Ok h', w')
        /\ Model_eq h' sample_model = false)
  /\ (exists h1 w1 h2 w2,
        from_file "unit.lp" empty_world = (Ok h1, w1)
        /\ from_file "unit.lp" w1 = (Ok h2, w2)
        /\ Model_eq h1 h2 = false).
Proof.
  assert (L : live sample_model loaded_world loaded_instance)
    by (exists 1%positive; split; reflexivity).
  assert (Hok : clone_ok loaded_instance) by reflexivity.
  destruct Model_eq_is_identity as (_ & Hcopy & Hfile).
  destruct (Hcopy _ _ _ L (or_intror Hok)) as (h' & w' & Hc & Hne & _).
  split; [exact L|]. split; [exact Hok|]. split; [eauto|].
  pose (w1 := snd (from_file_result "unit.lp" empty_world)).
  assert (H1 : from_file "unit.lp" empty_world
               = (Ok {| scip := Some (alloc_loc empty_world) |}, w1))
    by (rewrite from_file_run; reflexivity).
  assert (H2 : from_file "unit.lp" w1
               = (Ok {| scip := Some (alloc_loc w1) |},
                  snd (from_file_result "unit.lp" w1)))
    by (rewrite from_file_run; reflexivity).
  destruct (Hfile _ _ _ _ _ _ H1 H2) as [Hne12 _].
  eauto 10.
Defined.

Lemma Model_assign_cases_witness :
  Model_assign 1%positive 1%positive two_handles_world
  = (Ok 1%positive, two_handles_world)
  /\ models two_handles_world !! 1%positive = Some sample_model
  /\ models two_handles_world !! 2%positive = Some other_model
  /\ valid sample_model two_handles_world
  /\ live other_model two_handles_world solving_instance
  /\ clone_ok solving_instance
  /\ exists w',
       Model_assign 1%positive 2%positive two_handles_world
       = (Ok 1%positive, w')
       /\ models w' !! 1%positive
          = Some {| scip := Some (alloc_loc two_handles_world) |}
       /\ scips w' !! 1%positive = None.
Proof.
  destruct (Model_assign_cases 1%positive 1%positive two_handles_world)
    as [Hself _].
  destruct (Model_assign_cases 1%positive 2%positive two_handles_world)
    as [_ Hother].
  assert (Hv : valid sample_model two_handles_world).
  { right. exists loaded_instance, 1%positive. split; reflexivity. }
  assert (Hl : live other_model two_handles_world solving_instance)
    by (exists 2%positive; split; reflexivity).
  assert (Hok : clone_ok solving_instance) by reflexivity.
  assert (Hne : 2%positive <> 1%positive) by discriminate.
  assert (Hsh : scip sample_model <> scip other_model) by discriminate.
  destruct (Hother sample_model other_model solving_instance Hne
              eq_refl eq_refl Hv Hl Hsh (or_intror Hok))
    as (w' & Hrun & _ & Hthis & _ & _ & _ & Hfree).
  split; [exact (proj1 (Hself eq_refl))|].
  split; [reflexivity|]. split; [reflexivity|]. split; [exact Hv|].
  split; [exact Hl|]. split; [exact Hok|].
  exists w'. split; [exact Hrun|]. split; [exact Hthis|].
  exact (Hfree 1%positive eq_refl).
Defined.

(** ** Parameters *)

Lemma param_type_of_tag (a b : SCIP_Param) :
  param_type_of a = param_type_of b <-> SCIPparamGetType a = SCIPparamGetType b.
Proof. by destruct a, b. Qed.


Lemma set_scip_param_run (w : World) (l : loc) (s : SCIP) name value :
  scips w !! l = Some s ->
  set_scip_param (Some l) name value w =
  match paramset s !! name with
  | None => (Throw UnknownParameter, w)
  | Some old =>
      if decide (param_type_of old = param_type_of value)
      then (Ok tt, written w l s name value)
      else (Throw TypeMismatch, w)
  end.
Proof.
  intros Hl.
  destruct value; cbn [set_scip_param];
    unfold set_scip_param_bool, set_scip_param_int, set_scip_param_longint,
      set_scip_param_real, set_scip_param_char, set_scip_param_string,
      set_scip_param_cstr, SCIPsetBoolParam, SCIPsetIntParam,
      SCIPsetLongintParam, SCIPsetRealParam, SCIPsetCharParam,
      SCIPsetStringParam, SCIPsetParam, assign;
    run_live Hl;
    (destruct (paramset s !! name) as [old|]; [|reflexivity]);
    destruct old; cbn [SCIPparamGetType param_type_of];
    repeat case_decide; try done; run_live Hl; reflexivity.
Qed.

(** The [std::string] overload writes the characters before the first NUL:
    all of them when there is none. *)
Lemma c_str_id (v : string) :
  (forall c, In c (list_ascii_of_string v) -> c <> Ascii.zero) -> c_str v = v.
Proof.
  induction v as [|c v IH]; intros Hv; [done|]. simpl.
  destruct (decide (c = Ascii.zero)) as [->|_].
  - exfalso. apply (Hv Ascii.zero); [by left|done].
  - f_equal. apply IH. intros c' Hc'. apply Hv. by right.
Qed.

Lemma set_scip_param_string_run (scip : option loc) name (v : string) :
  set_scip_param_string scip name v
  = set_scip_param scip name (StringParam (c_str v)).
Proof. reflexivity. Qed.

Example c_str_stops_at_NUL :
  c_str (String "a" (String Ascii.zero (String "b" EmptyString))) = "a"%string.
Proof. reflexivity. Qed.

Lemma get_scip_param_run (w : World) (l : loc) (s : SCIP) name T :
  scips w !! l = Some s ->
  get_scip_param (Some l) name T w =
  match paramset s !! name with
  | None => (Throw UnknownParameter, w)
  | Some v =>
      if decide (param_type_of v = T) then (Ok v, w)
      else (Throw TypeMismatch, w)
  end.
Proof.
  intros Hl.
  destruct T; cbn [get_scip_param];
    unfold get_scip_param_bool, get_scip_param_int, get_scip_param_longint,
      get_scip_param_real, get_scip_param_char, get_scip_param_cstr,
      SCIPgetBoolParam, SCIPgetIntParam, SCIPgetLongintParam,
      SCIPgetRealParam, SCIPgetCharParam, SCIPgetStringParam;
    run_live Hl;
    (destruct (paramset s !! name) as [v|]; [|reflexivity]);
    destruct v; cbn [param_type_of]; case_decide; try done; reflexivity.
Qed.

Lemma get_param_type_run (this : Model) (w : World) (l : loc) (s : SCIP) name :
  scip this = Some l -> scips w !! l = Some s ->
  get_param_type this name w =
  match paramset s !! name with
  | None => (Throw UnknownParameter, w)
  | Some v => (Ok (param_type_of v), w)
  end.
Proof.
  intros Hp Hl. unfold get_param_type. run_M. rewrite Hp. run_live Hl.
  destruct (paramset s !! name) as [v|]; [|reflexivity].
  by destruct v.
Qed.

Lemma set_param_run (this : Model) (w : World) (l : loc) (s : SCIP) name value :
  scip this = Some l -> scips w !! l = Some s ->
  set_param this name value w = set_scip_param (Some l) name value w.
Proof.
  intros Hp Hl. unfold set_param, set_param_explicit, get_scip_ptr.
  unfold bind. rewrite (get_param_type_run _ _ _ _ _ Hp Hl), Hp.
  rewrite (set_scip_param_run _ _ _ _ _ Hl).
  destruct (paramset s !! name) as [old|] eqn:E; [|reflexivity].
  case_decide; [|reflexivity].
  rewrite (set_scip_param_run _ _ _ _ _ Hl), E. by case_decide.
Qed.

Lemma get_param_run (this : Model) (w : World) (l : loc) (s : SCIP) name T :
  scip this = Some l -> scips w !! l = Some s ->
  get_param this name T w = get_scip_param (Some l) name T w.
Proof.
  intros Hp Hl. unfold get_param, get_param_explicit, get_scip_ptr.
  unfold bind. rewrite (get_param_type_run _ _ _ _ _ Hp Hl), Hp.
  rewrite (get_scip_param_run _ _ _ _ _ Hl).
  destruct (paramset s !! name) as [old|] eqn:E; [|reflexivity].
  case_decide; [|reflexivity].
  rewrite (get_scip_param_run _ _ _ _ _ Hl), E. by case_decide.
Qed.

Lemma written_lookup (w : World) (l : loc) (s : SCIP) name value :
  scips (written w l s name value) !! l
  = Some (set_paramset (<[name := value]> (paramset s)) s)
  /\ paramset (set_paramset (<[name := value]> (paramset s)) s) !! name
     = Some value.
Proof. split; cbn; apply lookup_insert_eq. Qed.

(** C7. When the named parameter exists with the tag of [value], [set_param]
    returns, and [get_param] then returns [value]; so do the typed accessors
    of [namespace internal].  [value] ranges over the six types.  More
    generally, whenever a write returns on a live handle, the read that
    follows returns the value written. *)
Theorem set_get_param_round_trip (this : Model) (w : World) (s : SCIP)
    (name : string) (value : SCIP_Param) :
  live this w s ->
  (forall old,
     paramset s !! name = Some old ->
     param_type_of old = param_type_of value ->
     exists w',
       set_param this name value w = (Ok tt, w')
       /\ get_param this name (param_type_of value) w' = (Ok value, w')
       /\ set_scip_param (scip this) name value w = (Ok tt, w')
       /\ get_scip_param (scip this) name (param_type_of value) w'
          = (Ok value, w'))
  /\ (forall w',
       set_param this name value w = (Ok tt, w') ->
       get_param this name (param_type_of value) w' = (Ok value, w')).
Proof.
  intros (l & Hp & Hl).
  pose proof (written_lookup w l s name value) as [Hl' Hv].
  assert (Hget : get_param this name (param_type_of value)
                   (written w l s name value)
                 = (Ok value, written w l s name value)).
  { rewrite (get_param_run _ _ _ _ _ _ Hp Hl').
    rewrite (get_scip_param_run _ _ _ _ _ Hl'), Hv. by case_decide. }
  split.
  - intros old Hold Htag. exists (written w l s name value).
    rewrite (set_param_run _ _ _ _ _ _ Hp Hl), Hp.
    rewrite (set_scip_param_run _ _ _ _ _ Hl), Hold.
    case_decide; [|done]. split; [done|]. split; [done|]. split; [done|].
    rewrite (get_scip_param_run _ _ _ _ _ Hl'), Hv. by case_decide.
  - intros w'. rewrite (set_param_run _ _ _ _ _ _ Hp Hl).
    rewrite (set_scip_param_run _ _ _ _ _ Hl).
    destruct (paramset s !! name) as [old|]; [|done].
    case_decide; [|done]. by intros [= <-].
Qed.

Lemma set_get_param_round_trip_witness :
  live sample_model loaded_world loaded_instance
  /\ paramset loaded_instance !! "limits/time"%string
     = Some (RealParam NodeBipartite.one)
  /\ exists w',
       set_param sample_model "limits/time" (RealParam NodeBipartite.zero)
         loaded_world = (Ok tt, w')
       /\ get_param sample_model "limits/time" ParamType.Real w'
          = (Ok (RealParam NodeBipartite.zero), w').
Proof.
  assert (L : live sample_model loaded_world loaded_instance)
    by (exists 1%positive; split; reflexivity).
  assert (Hold : paramset loaded_instance !! "limits/time"%string
                 = Some (RealParam NodeBipartite.one)) by reflexivity.
  destruct (set_get_param_round_trip sample_model loaded_world loaded_instance
              "limits/time" (RealParam NodeBipartite.zero) L) as [H _].
  destruct (H _ Hold eq_refl) as (w' & Hset & Hget & _).
  split; [exact L|]. split; [exact Hold|]. eauto.
Defined.

(** C8. On a live handle, when no parameter has the given name,
    [get_param_type], [get_param] and [set_param] throw [UnknownParameter];
    when the parameter exists with a tag other than the one requested or
    supplied, [get_param] and [set_param] throw [TypeMismatch].  The typed
    accessors of [namespace internal] throw the same.  In each case the store
    is what it was: nothing is converted or written. *)
Theorem param_errors (this : Model) (w : World) (s : SCIP) (name : string) :
  live this w s ->
  (paramset s !! name = None ->
     get_param_type this name w = (Throw UnknownParameter, w)
     /\ (forall T, get_param this name T w = (Throw UnknownParameter, w)
                   /\ get_scip_param (scip this) name T w
                      = (Throw UnknownParameter, w))
     /\ (forall value,
           set_param this name value w = (Throw UnknownParameter, w)
           /\ set_scip_param (scip this) name value w
              = (Throw UnknownParameter, w)))
  /\ (forall stored,
       paramset s !! name = Some stored ->
       get_param_type this name w = (Ok (param_type_of stored), w)
       /\ (forall T, T <> param_type_of stored ->
             get_param this name T w = (Throw TypeMismatch, w)
             /\ get_scip_param (scip this) name T w = (Throw TypeMismatch, w))
       /\ (forall value, param_type_of value <> param_type_of stored ->
             set_param this name value w = (Throw TypeMismatch, w)
             /\ set_scip_param (scip this) name value w
                = (Throw TypeMismatch, w))).
Proof.
  intros (l & Hp & Hl). split.
  - intros Hnone. split; [|split].
    + by rewrite (get_param_type_run _ _ _ _ _ Hp Hl), Hnone.
    + intros T. rewrite (get_param_run _ _ _ _ _ _ Hp Hl), Hp.
      by rewrite (get_scip_param_run _ _ _ _ _ Hl), Hnone.
    + intros value. rewrite (set_param_run _ _ _ _ _ _ Hp Hl), Hp.
      by rewrite (set_scip_param_run _ _ _ _ _ Hl), Hnone.
  - intros stored Hsome. split; [|split].
    + by rewrite (get_param_type_run _ _ _ _ _ Hp Hl), Hsome.
    + intros T HT. rewrite (get_param_run _ _ _ _ _ _ Hp Hl), Hp.
      rewrite (get_scip_param_run _ _ _ _ _ Hl), Hsome.
      by case_decide.
    + intros value HT. rewrite (set_param_run _ _ _ _ _ _ Hp Hl), Hp.
      rewrite (set_scip_param_run _ _ _ _ _ Hl), Hsome.
      by case_decide.
Qed.

Lemma param_errors_witness :
  live sample_model loaded_world loaded_instance
  /\ paramset loaded_instance !! "no/such/parameter"%string = None
  /\ paramset loaded_instance !! "limits/time"%string
     = Some (RealParam NodeBipartite.one)
  /\ get_param sample_model "no/such/parameter" ParamType.Int loaded_world
     = (Throw UnknownParameter, loaded_world)
  /\ set_param sample_model "limits/time" (IntParam 3) loaded_world
     = (Throw TypeMismatch, loaded_world)
  /\ get_param sample_model "limits/time" ParamType.Int loaded_world
     = (Throw TypeMismatch, loaded_world).
Proof.
  assert (L : live sample_model loaded_world loaded_instance)
    by (exists 1%positive; split; reflexivity).
  assert (Hnone : paramset loaded_instance !! "no/such/parameter"%string = None)
    by reflexivity.
  assert (Hsome : paramset loaded_instance !! "limits/time"%string
                  = Some (RealParam NodeBipartite.one)) by reflexivity.
  destruct (param_errors sample_model loaded_world loaded_instance
              "no/such/parameter" L) as [Hunknown _].
  destruct (Hunknown Hnone) as (_ & Hget & _).
  destruct (param_errors sample_model loaded_world loaded_instance
              "limits/time" L) as [_ Hmismatch].
  destruct (Hmismatch _ Hsome) as (_ & Hget' & Hset').
  split; [exact L|]. split; [exact Hnone|]. split; [exact Hsome|].
  split; [exact (proj1 (Hget ParamType.Int))|].
  split.
  - apply (Hset' (IntParam 3)). discriminate.
  - apply (Hget' ParamType.Int). discriminate.
Defined.

(** ** The seed *)

Lemma std_abs_in_range (v : Z) : is_int v -> is_int (- v) -> std_abs v = Z.abs v.
Proof.
  unfold is_int, INT_MIN, INT_MAX, std_abs, wrap_int. intros Hv Hn.
  rewrite Z.mod_small; lia.
Qed.

Lemma std_abs_opp (v : Z) : std_abs (- v) = std_abs v.
Proof. unfold std_abs. by rewrite Z.abs_opp. Qed.

Lemma get_scip_param_int_run (w : World) (l : loc) (s : SCIP) name (v : Z) :
  scips w !! l = Some s -> paramset s !! name = Some (IntParam v) ->
  get_scip_param_int (Some l) name w = (Ok v, w).
Proof.
  intros Hl Hv. unfold get_scip_param_int, SCIPgetIntParam.
  run_live Hl. rewrite Hv. reflexivity.
Qed.

(** C9. [seed(v)] and [seed(-v)] are the same computation: they write the
    same value.  When [v] and [-v] are both [int]s and the handle is live
    with the seed parameter in place, the write returns and [seed()] then
    reads the magnitude of [v]. *)
Theorem seed_discards_sign (this : Model) (v : Z) :
  is_int v -> is_int (- v) ->
  (forall w, seed_set this v w = seed_set this (- v) w)
  /\ (forall w s old,
        live this w s ->
        paramset s !! "randomization/randomseedshift"%string = Some (IntParam old) ->
        exists w',
          seed_set this v w = (Ok tt, w')
          /\ seed_set this (- v) w = (Ok tt, w')
          /\ seed_get this w' = (Ok (Z.abs v), w')).
Proof.
  intros Hv Hn.
  assert (Hsame : forall w, seed_set this v w = seed_set this (- v) w).
  { intros w. unfold seed_set. by rewrite std_abs_opp. }
  split; [exact Hsame|].
  intros w s old (l & Hp & Hl) Hold.
  pose proof (written_lookup w l s "randomization/randomseedshift"
                (IntParam (std_abs v))) as [Hl' Hv'].
  eexists. rewrite <- Hsame.
  unfold seed_set, seed_get, set_param_explicit_int, get_param_explicit_int,
    get_scip_ptr. rewrite Hp.
  change (set_scip_param_int (Some l) ?n ?z)
    with (set_scip_param (Some l) n (IntParam z)).
  rewrite (set_scip_param_run _ _ _ _ _ Hl), Hold.
  case_decide; [|done]. split; [reflexivity|]. split; [reflexivity|].
  rewrite (get_scip_param_int_run _ _ _ _ _ Hl' Hv').
  by rewrite (std_abs_in_range _ Hv Hn).
Qed.

Lemma seed_discards_sign_witness :
  is_int (-7) /\ is_int (- -7)
  /\ exists w',
       seed_set sample_model (-7) loaded_world = (Ok tt, w')
       /\ seed_set sample_model 7 loaded_world = (Ok tt, w')
       /\ seed_get sample_model w' = (Ok 7, w').
Proof.
  assert (H1 : is_int (-7)) by (unfold is_int, INT_MIN, INT_MAX; simpl; lia).
  assert (H2 : is_int (- -7)) by (unfold is_int, INT_MIN, INT_MAX; simpl; lia).
  assert (L : live sample_model loaded_world loaded_instance)
    by (exists 1%positive; split; reflexivity).
  destruct (seed_discards_sign sample_model (-7) H1 H2) as [_ H].
  destruct (H loaded_world loaded_instance 0 L eq_refl) as (w' & Ha & Hb & Hc).
  split; [exact H1|]. split; [exact H2|]. exists w'. auto.
Defined.

(** At [INT_MIN], the one [int] whose opposite is not an [int], the wrapped
    magnitude is [INT_MIN] itself. *)
Example std_abs_INT_MIN : std_abs INT_MIN = INT_MIN.
Proof. reflexivity. Qed.

(** ** The NodeBipartite extractor *)

Module NodeBipartiteProperties.
Import NodeBipartiteObs NodeBipartite.


Lemma variables_run (this : Model) (w : World) (s : SCIP) :
  live this w s -> Z.of_nat (length (vars s)) <= INT_MAX ->
  variables this w
  = (Ok (mkView (scip this) (vars s) (Z.of_nat (length (vars s)))), w).
Proof.
  intros (l & Hp & Hl) Hn. unfold variables. run_M. rewrite Hp.
  run_live Hl. by rewrite size_t_of_count.
Qed.

Lemma lp_rows_run (this : Model) (w : World) (s : SCIP) :
  live this w s -> stage s = SCIP_STAGE_SOLVING ->
  Z.of_nat (length (lprows s)) <= INT_MAX ->
  lp_rows this w
  = (Ok (mkView (scip this) (lprows s) (Z.of_nat (length (lprows s)))), w).
Proof.
  intros (l & Hp & Hl) Hst Hn. unfold lp_rows. run_M. rewrite Hp.
  run_live Hl. case_decide; [done|]. run_live Hl.
  by rewrite size_t_of_count.
Qed.


Lemma extract_fresh_run (self : NodeBipartite.t) (model : Model) (w : World)
    (s : SCIP) :
  live model w s -> stage s = SCIP_STAGE_SOLVING -> counts_are_ints s ->
  use_cache self && cache_computed self = false ->
  extract self model false w
  = (Ok (Some (extract_fully (var_view model s) (row_view model s)),
         if use_cache self
         then {| the_cache := extract_fully (var_view model s) (row_view model s);
                 use_cache := true; cache_computed := true |}
         else self), w).
Proof.
  intros Hlive Hst [Hn Hm] Hc. unfold extract. unfold bind.
  rewrite (variables_run _ _ _ Hlive Hn), (lp_rows_run _ _ _ Hlive Hst Hm).
  by rewrite Hc.
Qed.

Lemma extract_cached_run (self : NodeBipartite.t) (model : Model) (w : World)
    (s : SCIP) :
  live model w s -> stage s = SCIP_STAGE_SOLVING -> counts_are_ints s ->
  use_cache self = true -> cache_computed self = true ->
  extract self model false w
  = (Ok (Some (extract_from_cache (the_cache self)
                 (var_view model s) (row_view model s)), self), w).
Proof.
  intros Hlive Hst [Hn Hm] Hu Hc. unfold extract. unfold bind.
  rewrite (variables_run _ _ _ Hlive Hn), (lp_rows_run _ _ _ Hlive Hst Hm).
  by rewrite Hu, Hc.
Qed.

Lemma edge_values_length (rs : list SCIP_ROW) :
  length (edge_values rs) = lp_nnz rs.
Proof.
  unfold edge_values, lp_nnz. induction rs as [|r rs IH]; [done|].
  simpl. rewrite length_app, length_map. f_equal. exact IH.
Qed.

Lemma concat_imap_length {B} (g : nat -> SCIP_ROW -> list B) (rs : list SCIP_ROW) :
  (forall i r, length (g i r) = length (row_nonz r)) ->
  length (concat (imap g rs)) = lp_nnz rs.
Proof.
  unfold lp_nnz. revert g. induction rs as [|r rs IH]; intros g Hg; [done|].
  simpl. rewrite length_app, Hg. f_equal. apply IH. intros i r'. apply Hg.
Qed.

Lemma edge_indices_length (rs : list SCIP_ROW) :
  length (edge_indices rs) = lp_nnz rs.
Proof.
  unfold edge_indices. apply concat_imap_length.
  intros i r. apply length_map.
Qed.

Lemma variable_row_length (v : SCIP_VAR) :
  length (static_variable_features v ++ dynamic_variable_features v) = 20%nat.
Proof. reflexivity. Qed.

Lemma row_row_length (r : SCIP_ROW) :
  length (static_row_features r ++ dynamic_row_features r) = 5%nat.
Proof. reflexivity. Qed.

(** C2. With [done] set, [extract] returns no observation, whatever the
    extractor holds (cache in use or not, populated or not) and whatever
    state the handle is in; extractor and store are left as they were. *)
Theorem extract_done_is_none (self : NodeBipartite.t) (model : Model)
    (w : World) :
  extract self model true w = (Ok (None, self), w).
Proof. reflexivity. Qed.

(** Without [done], outside the solving stage the stage violation of the
    handle surfaces: the absence of an observation at the end of an episode
    is not an error, the request for rows of a relaxation that is not there
    is. *)
Lemma extract_outside_solving (self : NodeBipartite.t) (model : Model)
    (w : World) (s : SCIP) :
  live model w s -> stage s <> SCIP_STAGE_SOLVING ->
  Z.of_nat (length (vars s)) <= INT_MAX ->
  exists e, extract self model false w = (Throw e, w) /\ StageViolation e.
Proof.
  intros Hlive Hst Hn. eexists. split; [|by right].
  unfold extract. unfold bind at 1. rewrite (variables_run _ _ _ Hlive Hn).
  destruct Hlive as (l & Hp & Hl).
  unfold lp_rows. run_M. rewrite Hp, Hl. by case_decide.
Qed.

Lemma refresh_static {E} (n : nat) (dynamic : E -> list value_type)
    (cached : xtensor2 value_type) (es : list E) :
  length (rows cached) = length es ->
  Forall (fun r => (n <= length r)%nat) (rows cached) ->
  columns_before n (refresh n dynamic cached es) = columns_before n cached.
Proof.
  unfold columns_before, refresh. cbn [rows].
  generalize (rows cached). clear cached.
  intros rs. revert es. induction rs as [|r rs IH]; intros [|e es] Hlen Hall;
    try done.
  inversion Hall as [|? ? Hr Hrs]; subst. simpl.
  f_equal; [|apply IH; [by injection Hlen|done]].
  rewrite take_app_le by (rewrite length_take; lia).
  by rewrite take_take, Nat.min_id.
Qed.

Lemma refresh_dynamic {E} (n : nat) (dynamic : E -> list value_type)
    (cached : xtensor2 value_type) (es : list E) :
  length (rows cached) = length es ->
  Forall (fun r => (n <= length r)%nat) (rows cached) ->
  columns_from n (refresh n dynamic cached es) = map dynamic es.
Proof.
  unfold columns_from, refresh. cbn [rows].
  generalize (rows cached). clear cached.
  intros rs. revert es. induction rs as [|r rs IH]; intros [|e es] Hlen Hall;
    try done.
  inversion Hall as [|? ? Hr Hrs]; subst. simpl.
  f_equal; [|apply IH; [by injection Hlen|done]].
  rewrite drop_app_length'; [done|]. rewrite length_take. lia.
Qed.

Lemma extract_fully_matches (model : Model) (s s' : SCIP) :
  length (vars s) = length (vars s') ->
  length (lprows s) = length (lprows s') ->
  cache_matches (extract_fully (var_view model s) (row_view model s)) s'.
Proof.
  intros Hn Hm. unfold cache_matches.
  cbn [extract_fully variable_features row_features rows view_data var_view
       row_view].
  rewrite !length_map. repeat split; try done.
  - apply Forall_forall. intros r [v [-> _]]%list_elem_of_fmap.
    rewrite variable_row_length. unfold n_static_variable_features. lia.
  - apply Forall_forall. intros r [v [-> _]]%list_elem_of_fmap.
    rewrite row_row_length. unfold n_static_row_features. lia.
Qed.

(** What an observation answered from [cache] at the state [s] holds. *)
Lemma extract_from_cache_blocks (cache : NodeBipartiteObs.t) (model : Model)
    (s : SCIP) :
  cache_matches cache s ->
  let obs := extract_from_cache cache (var_view model s) (row_view model s) in
  columns_before n_static_variable_features (variable_features obs)
  = columns_before n_static_variable_features (variable_features cache)
  /\ columns_before n_static_row_features (row_features obs)
     = columns_before n_static_row_features (row_features cache)
  /\ columns_from n_static_variable_features (variable_features obs)
     = map dynamic_variable_features (vars s)
  /\ columns_from n_static_row_features (row_features obs)
     = map dynamic_row_features (lprows s).
Proof.
  intros (Hn & Hv & Hm & Hr).
  cbn [extract_from_cache variable_features row_features view_data var_view
       row_view].
  repeat split.
  - by apply refresh_static.
  - by apply refresh_static.
  - by apply refresh_dynamic.
  - by apply refresh_dynamic.
Qed.

Lemma refresh_well_shaped {E} (n k : nat) (dynamic : E -> list value_type)
    (cached : xtensor2 value_type) (es : list E) :
  length (rows cached) = length es ->
  Forall (fun r => (n <= length r)%nat) (rows cached) ->
  (forall e, length (dynamic e) = k) ->
  length (rows (refresh n dynamic cached es)) = length es
  /\ Forall (fun r => length r = (n + k)%nat)
       (rows (refresh n dynamic cached es)).
Proof.
  unfold refresh. cbn [rows]. intros Hlen Hall Hk.
  revert Hlen Hall. generalize (rows cached). clear cached.
  intros rs. revert es. induction rs as [|r rs IH]; intros [|e es] Hlen Hall;
    try done.
  inversion Hall as [|? ? Hr Hrs]; subst. simpl.
  destruct (IH es) as [IHlen IHall]; [by injection Hlen|done|].
  split; [by rewrite IHlen|]. constructor; [|exact IHall].
  rewrite length_app, length_take, Hk. lia.
Qed.

Lemma cache_fits_same_counts (cache : NodeBipartiteObs.t) (s s' : SCIP) :
  same_counts s s' -> cache_fits cache s -> cache_fits cache s'.
Proof.
  intros (Hn & Hm & Hz) ((A & B & C & D) & Hv & Hr & He & Hi).
  unfold cache_fits, cache_matches. by rewrite Hn, Hm, Hz.
Qed.

Lemma extract_fully_fits (model : Model) (s : SCIP) :
  cache_fits (extract_fully (var_view model s) (row_view model s)) s.
Proof.
  split; [by apply extract_fully_matches|].
  cbn [extract_fully variable_features row_features edge_features shape
       coo_shape indices view_data view_size var_view row_view].
  rewrite !Nat2Z.id. repeat split. apply edge_indices_length.
Qed.

(** C4. In the solving stage, on an instance with [n] variables and [m] rows
    in the relaxation, the observation has variable features of shape
    (n, 20), row features of shape (m, 5) and edge features of shape (m, n)
    with as many entries as the relaxation has structural nonzeros.  This
    holds for an extractor that computes the observation from scratch (no
    caching, or a cache that is not populated) and for one that answers from
    a cache filled at a state with these counts; and the extractor it leaves
    is again in step with every state of these counts, so it holds for each
    call of a sequence in which the counts stay the same. *)
Theorem extract_shapes (self : NodeBipartite.t) (model : Model) (w : World)
    (s : SCIP) :
  live model w s -> stage s = SCIP_STAGE_SOLVING -> counts_are_ints s ->
  cache_in_step self s ->
  exists obs self',
    extract self model false w = (Ok (Some obs, self'), w)
    /\ (shape (variable_features obs) = (length (vars s), 20%nat)
        /\ well_shaped (variable_features obs)
        /\ shape (row_features obs) = (length (lprows s), 5%nat)
        /\ well_shaped (row_features obs)
        /\ coo_shape (edge_features obs) = (length (lprows s), length (vars s))
        /\ nnz (edge_features obs) = lp_nnz (lprows s)
        /\ length (indices (edge_features obs)) = lp_nnz (lprows s))
    /\ (forall s', same_counts s s' -> cache_in_step self' s').
Proof.
  intros Hlive Hst Hint Hstep.
  destruct (use_cache self && cache_computed self) eqn:Hc.
  - (* answered from the cache *)
    apply andb_true_iff in Hc as [Hu Hcc].
    destruct (Hstep Hu Hcc) as ((Hn & Hv & Hm & Hr) & Hsv & Hsr & Hse & Hsi).
    destruct (refresh_well_shaped n_static_variable_features
                n_dynamic_variable_features dynamic_variable_features
                (variable_features (the_cache self)) (vars s) Hn Hv)
      as [Hvl Hvw]; [done|].
    destruct (refresh_well_shaped n_static_row_features
                n_dynamic_row_features dynamic_row_features
                (row_features (the_cache self)) (lprows s) Hm Hr)
      as [Hrl Hrw]; [done|].
    eexists _, _.
    split; [exact (extract_cached_run _ _ _ _ Hlive Hst Hint Hu Hcc)|].
    unfold well_shaped, nnz.
    cbn [extract_from_cache variable_features row_features edge_features
         values indices coo_shape view_data var_view row_view].
    change (shape (refresh ?a ?b ?c ?d)) with (shape c).
    rewrite Hsv, Hsr. cbn [fst snd].
    split.
    { split; [done|]. split; [by split|]. split; [done|]. split; [by split|].
      split; [done|]. split; [apply edge_values_length|done]. }
    intros s' Hsame _ _. apply (cache_fits_same_counts _ s); [done|].
    by apply Hstep.
  - (* computed from scratch *)
    eexists _, _.
    split; [exact (extract_fresh_run _ _ _ _ Hlive Hst Hint Hc)|].
    split; [|intros s' Hsame; destruct (use_cache self) eqn:Hu].
    + unfold well_shaped, nnz. cbn. rewrite !Nat2Z.id, !length_map.
      repeat split.
      * apply Forall_forall. intros r [v [-> _]]%list_elem_of_fmap. reflexivity.
      * apply Forall_forall. intros r [v [-> _]]%list_elem_of_fmap. reflexivity.
      * apply edge_values_length.
      * apply edge_indices_length.
    + intros _ _. cbn [the_cache].
      apply (cache_fits_same_counts _ s); [done|apply extract_fully_fits].
    + intros Hu'. congruence.
Qed.

Lemma extract_shapes_witness :
  live sample_model solving_world solving_instance
  /\ live sample_model solving_world_later solving_instance_later
  /\ counts_are_ints solving_instance
  /\ counts_are_ints solving_instance_later
  /\ cache_in_step (NodeBipartite.new true) solving_instance
  /\ same_counts solving_instance solving_instance_later
  /\ exists obs1 self1 obs2 self2,
       extract (NodeBipartite.new true) sample_model false solving_world
       = (Ok (Some obs1, self1), solving_world)
       /\ shape (variable_features obs1) = (2%nat, 20%nat)
       /\ shape (row_features obs1) = (3%nat, 5%nat)
       /\ coo_shape (edge_features obs1) = (3%nat, 2%nat)
       /\ nnz (edge_features obs1) = 3%nat
       /\ cache_computed self1 = true
       /\ extract self1 sample_model false solving_world_later
          = (Ok (Some obs2, self2), solving_world_later)
       /\ shape (variable_features obs2) = (2%nat, 20%nat)
       /\ shape (row_features obs2) = (3%nat, 5%nat)
       /\ coo_shape (edge_features obs2) = (3%nat, 2%nat)
       /\ nnz (edge_features obs2) = 3%nat.
Proof.
  assert (L1 : live sample_model solving_world solving_instance)
    by (exists 1%positive; split; reflexivity).
  assert (L2 : live sample_model solving_world_later solving_instance_later)
    by (exists 1%positive; split; reflexivity).
  assert (Hint1 : counts_are_ints solving_instance)
    by (unfold counts_are_ints, INT_MAX; simpl; lia).
  assert (Hint2 : counts_are_ints solving_instance_later)
    by (unfold counts_are_ints, INT_MAX; simpl; lia).
  assert (Hstep1 : cache_in_step (NodeBipartite.new true) solving_instance)
    by (intros _ Hcc; discriminate Hcc).
  assert (Hsame : same_counts solving_instance solving_instance_later)
    by (repeat split; reflexivity).
  destruct (extract_shapes (NodeBipartite.new true) sample_model solving_world
              solving_instance L1 eq_refl Hint1 Hstep1)
    as (obs1 & self1 & Hrun1 & (Hv1 & _ & Hr1 & _ & He1 & Hnnz1 & _) & Hstep2).
  destruct (extract_shapes self1 sample_model solving_world_later
              solving_instance_later L2 eq_refl Hint2 (Hstep2 _ Hsame))
    as (obs2 & self2 & Hrun2 & (Hv2 & _ & Hr2 & _ & He2 & Hnnz2 & _) & _).
  assert (Hcc : cache_computed self1 = true).
  { assert (Hrun : extract (NodeBipartite.new true) sample_model false
                     solving_world
                   = (Ok (Some (extract_fully
                                  (var_view sample_model solving_instance)
                                  (row_view sample_model solving_instance)),
                          {| the_cache :=
                               extract_fully
                                 (var_view sample_model solving_instance)
                                 (row_view sample_model solving_instance);
                             use_cache := true; cache_computed := true |}),
                      solving_world)) by reflexivity.
    rewrite Hrun in Hrun1. by injection Hrun1 as _ <-. }
  split; [exact L1|]. split; [exact L2|]. split; [exact Hint1|].
  split; [exact Hint2|]. split; [exact Hstep1|]. split; [exact Hsame|].
  exists obs1, self1, obs2, self2.
  split; [exact Hrun1|]. split; [exact Hv1|]. split; [exact Hr1|].
  split; [exact He1|]. split; [exact Hnnz1|]. split; [exact Hcc|].
  split; [exact Hrun2|]. split; [exact Hv2|]. split; [exact Hr2|].
  split; [exact He2|]. exact Hnnz2.
Defined.

(** The cache is not refreshed in structure: an extractor whose cache was
    filled when the relaxation had three rows, asked at a state with four,
    is not in step with that state and returns tensors of the cached shape.
    Structure that changes within an episode is outside what the cache is
    for. *)
Example stale_cache_keeps_its_shape :
  exists obs,
    extract
      {| the_cache := extract_fully (var_view sample_model solving_instance)
                        (row_view sample_model solving_instance);
         use_cache := true; cache_computed := true |}
      sample_model false solving_world_more_rows
    = (Ok (Some obs,
           {| the_cache := extract_fully (var_view sample_model solving_instance)
                             (row_view sample_model solving_instance);
              use_cache := true; cache_computed := true |}),
       solving_world_more_rows)
    /\ length (lprows solving_instance_more_rows) = 4%nat
    /\ shape (row_features obs) = (3%nat, 5%nat)
    /\ coo_shape (edge_features obs) = (3%nat, 2%nat).
Proof.
  eexists. split; [reflexivity|]. repeat split.
Qed.

(** C3. An extractor with caching on is asked twice, at two states of the
    search with the same number of variables and of rows; its cache is empty,
    or was filled at a state of that structure.  The static columns of the
    variable and row features and the edge structure of the second
    observation are those of the first, whatever the second state holds; its
    dynamic columns and its edge values are computed from the second
    state. *)
Theorem extract_twice_with_cache (self : NodeBipartite.t) (model : Model)
    (w1 w2 : World) (s1 s2 : SCIP) :
  use_cache self = true ->
  (cache_computed self = true -> cache_matches (the_cache self) s1) ->
  live model w1 s1 -> stage s1 = SCIP_STAGE_SOLVING -> counts_are_ints s1 ->
  live model w2 s2 -> stage s2 = SCIP_STAGE_SOLVING -> counts_are_ints s2 ->
  length (vars s1) = length (vars s2) ->
  length (lprows s1) = length (lprows s2) ->
  exists obs1 obs2 self1,
    extract self model false w1 = (Ok (Some obs1, self1), w1)
    /\ extract self1 model false w2 = (Ok (Some obs2, self1), w2)
    /\ columns_before n_static_variable_features (variable_features obs2)
       = columns_before n_static_variable_features (variable_features obs1)
    /\ columns_before n_static_row_features (row_features obs2)
       = columns_before n_static_row_features (row_features obs1)
    /\ indices (edge_features obs2) = indices (edge_features obs1)
    /\ coo_shape (edge_features obs2) = coo_shape (edge_features obs1)
    /\ shape (variable_features obs2) = shape (variable_features obs1)
    /\ shape (row_features obs2) = shape (row_features obs1)
    /\ columns_from n_static_variable_features (variable_features obs2)
       = map dynamic_variable_features (vars s2)
    /\ columns_from n_static_row_features (row_features obs2)
       = map dynamic_row_features (lprows s2)
    /\ values (edge_features obs2) = edge_values (lprows s2).
Proof.
  intros Hu Hcache Hl1 Hst1 Hint1 Hl2 Hst2 Hint2 Hn Hm.
  destruct (cache_computed self) eqn:Hc.
  - (* both calls are answered from the cache *)
    specialize (Hcache eq_refl).
    assert (Hcache2 : cache_matches (the_cache self) s2).
    { destruct Hcache as (? & ? & ? & ?). unfold cache_matches.
      by rewrite <- Hn, <- Hm. }
    destruct (extract_from_cache_blocks _ model _ Hcache) as (A1 & B1 & _ & _).
    destruct (extract_from_cache_blocks _ model _ Hcache2) as (A2 & B2 & C2 & D2).
    eexists _, _, _.
    split; [exact (extract_cached_run _ _ _ _ Hl1 Hst1 Hint1 Hu Hc)|].
    split; [exact (extract_cached_run _ _ _ _ Hl2 Hst2 Hint2 Hu Hc)|].
    split; [by rewrite A2, A1|]. split; [by rewrite B2, B1|].
    split; [done|]. split; [done|]. split; [done|]. split; [done|].
    split; [exact C2|]. split; [exact D2|]. done.
  - (* the first call fills the cache, the second is answered from it *)
    pose proof (extract_fully_matches model s1 s2 Hn Hm) as Hcache2.
    destruct (extract_from_cache_blocks _ model _ Hcache2) as (A2 & B2 & C2 & D2).
    eexists _, _, _. split.
    { rewrite (extract_fresh_run _ _ _ _ Hl1 Hst1 Hint1) by (by rewrite Hu, Hc).
      rewrite Hu. reflexivity. }
    split; [by apply (extract_cached_run _ _ _ _ Hl2 Hst2 Hint2)|].
    cbn [the_cache].
    split; [exact A2|]. split; [exact B2|].
    split; [done|]. split; [done|]. split; [done|]. split; [done|].
    split; [exact C2|]. split; [exact D2|]. done.
Qed.

Lemma extract_twice_with_cache_witness :
  live sample_model solving_world solving_instance
  /\ live sample_model solving_world_later solving_instance_later
  /\ counts_are_ints solving_instance
  /\ counts_are_ints solving_instance_later
  /\ exists obs1 obs2 self1,
       extract (NodeBipartite.new true) sample_model false solving_world
       = (Ok (Some obs1, self1), solving_world)
       /\ extract self1 sample_model false solving_world_later
          = (Ok (Some obs2, self1), solving_world_later)
       /\ columns_before n_static_variable_features (variable_features obs2)
          = columns_before n_static_variable_features (variable_features obs1)
       /\ indices (edge_features obs2) = indices (edge_features obs1)
       /\ columns_from n_static_variable_features (variable_features obs2)
          = map dynamic_variable_features (vars solving_instance_later).
Proof.
  assert (L1 : live sample_model solving_world solving_instance)
    by (exists 1%positive; split; reflexivity).
  assert (L2 : live sample_model solving_world_later solving_instance_later)
    by (exists 1%positive; split; reflexivity).
  assert (Hint1 : counts_are_ints solving_instance)
    by (unfold counts_are_ints, INT_MAX; simpl; lia).
  assert (Hint2 : counts_are_ints solving_instance_later)
    by (unfold counts_are_ints, INT_MAX; simpl; lia).
  assert (Hempty : cache_computed (NodeBipartite.new true) = true ->
                   cache_matches (the_cache (NodeBipartite.new true))
                     solving_instance) by discriminate.
  destruct (extract_twice_with_cache (NodeBipartite.new true) sample_model
              solving_world solving_world_later solving_instance
              solving_instance_later eq_refl Hempty L1 eq_refl Hint1
              L2 eq_refl Hint2 eq_refl eq_refl)
    as (obs1 & obs2 & self1 & Hrun1 & Hrun2 & Hsv & _ & Hei & _ & _ & _
        & Hdv & _).
  split; [exact L1|]. split; [exact L2|]. split; [exact Hint1|].
  split; [exact Hint2|]. eauto 10.
Defined.

(** On the sample stores the second state differs from the first in a dynamic
    column (the solution value of the second variable) and in a static one
    (its objective coefficient): the dynamic column of the second observation
    is the new one, the static column is still the cached one. *)
Example cached_static_column_is_kept :
  exists obs2,
    extract
      {| the_cache := extract_fully (var_view sample_model solving_instance)
                        (row_view sample_model solving_instance);
         use_cache := true; cache_computed := true |}
      sample_model false solving_world_later
    = (Ok (Some obs2,
           {| the_cache := extract_fully (var_view sample_model solving_instance)
                             (row_view sample_model solving_instance);
              use_cache := true; cache_computed := true |}),
       solving_world_later)
    /\ columns_before n_static_variable_features (variable_features obs2)
       <> map static_variable_features (vars solving_instance_later)
    /\ columns_from n_static_variable_features (variable_features obs2)
       <> map dynamic_variable_features (vars solving_instance).
Proof.
  eexists. split; [reflexivity|]. split; discriminate.
Qed.

End NodeBipartiteProperties.

(** * Further properties of [model.cpp] *)

Section Lifetime.
Context `{lib : SolverLib}.

Lemma Deleter_run (w : World) (l : loc) (s : SCIP) :
  scips w !! l = Some s ->
  Deleter (Some l) w = (Ok tt, without_instance w l).
Proof.
  intros Hl. unfold Deleter, SCIPfree, without_instance. by run_live Hl.
Qed.

Lemma Deleter_dangling (w : World) (l : loc) :
  scips w !! l = None -> Deleter (Some l) w = (Undefined, w).
Proof.
  intros Hl. unfold Deleter, SCIPfree. by run_live Hl.
Qed.

(** X1. [create()] never returns the null pointer: it returns the address of
    a new instance in the stage [SCIP_STAGE_INIT] whose message handler is
    quiet.  The address was not in use, every instance that was alive is
    still there unchanged, and no handle object is touched. *)
Theorem create_allocates (w : World) :
  exists l w',
    create w = (Ok (Some l), w')
    /\ scips w !! l = None
    /\ scips w' !! l = Some fresh_instance
    /\ stage fresh_instance = SCIP_STAGE_INIT
    /\ quiet fresh_instance = true
    /\ (forall l' s, scips w !! l' = Some s -> scips w' !! l' = Some s)
    /\ dom (scips w') = {[ l ]} ∪ dom (scips w)
    /\ models w' = models w.
Proof.
  exists (alloc_loc w). eexists. split; [apply create_run|].
  cbn [scips models]. split; [apply alloc_loc_fresh|].
  split; [apply lookup_insert_eq|]. split; [done|]. split; [done|].
  split; [|split; [apply dom_insert_L|done]].
  intros l' s Hl'. rewrite lookup_insert_ne; [done|].
  by apply (live_not_alloc _ _ s).
Qed.

(** X2. Freeing what [create()] returned gives back the store as it was
    before the call: the deleter undoes the allocation, nothing is left
    over. *)
Theorem create_then_Deleter (w : World) :
  (let! p := create in Deleter p) w = (Ok tt, w).
Proof.
  unfold bind. rewrite create_run.
  rewrite (Deleter_run _ _ fresh_instance) by apply lookup_insert_eq.
  unfold without_instance. cbn [scips models].
  rewrite (delete_insert_id _ _ _ (alloc_loc_fresh w)).
  by rewrite world_eta.
Qed.

(** X3. The deleter removes the instance of a live pointer and nothing else.
    Afterwards the pointer dangles: reading the stage through it, and
    deleting it a second time, are undefined. *)
Theorem Deleter_frees (w : World) (l : loc) (s : SCIP) :
  scips w !! l = Some s ->
  exists w',
    Deleter (Some l) w = (Ok tt, w')
    /\ scips w' !! l = None
    /\ (forall l', l' <> l -> scips w' !! l' = scips w !! l')
    /\ models w' = models w
    /\ SCIPgetStage (Some l) w' = (Undefined, w')
    /\ Deleter (Some l) w' = (Undefined, w').
Proof.
  intros Hl. exists (without_instance w l).
  assert (Hgone : scips (without_instance w l) !! l = None)
    by apply lookup_delete_eq.
  split; [by apply (Deleter_run _ _ s)|]. split; [exact Hgone|].
  split; [intros l' Hl'; by apply lookup_delete_ne|]. split; [done|].
  split; [|by apply Deleter_dangling].
  by run_live Hgone.
Qed.

(** X4. [Model(unique_ptr<SCIP>&&)] refuses the null pointer with the
    exception "Cannot create empty model" and changes nothing; given what
    [create()] returns it never throws, and the handle it builds is live on
    the new instance. *)
Theorem Model_of_ptr_cases (w : World) :
  Model_of_ptr None w = (Throw (Exception_what "Cannot create empty model"), w)
  /\ exists m w',
       (let! p := create in Model_of_ptr p) w = (Ok m, w')
       /\ live m w' fresh_instance
       /\ scip m = Some (alloc_loc w).
Proof.
  split; [reflexivity|]. eexists _, _. unfold bind. rewrite create_run.
  split; [reflexivity|]. split; [|done].
  exists (alloc_loc w). split; [done|]. apply lookup_insert_eq.
Qed.

End Lifetime.

Lemma create_allocates_witness :
  exists l w',
    create loaded_world = (Ok (Some l), w')
    /\ scips w' !! l = Some fresh_instance
    /\ scips w' !! 1%positive = Some loaded_instance.
Proof.
  destruct (create_allocates loaded_world)
    as (l & w' & Hrun & _ & Hnew & _ & _ & Hframe & _).
  exists l, w'. split; [exact Hrun|]. split; [exact Hnew|].
  apply Hframe. reflexivity.
Defined.

Lemma Deleter_frees_witness :
  scips two_handles_world !! 2%positive = Some solving_instance
  /\ exists w',
       Deleter (Some 2%positive) two_handles_world = (Ok tt, w')
       /\ scips w' !! 1%positive = Some loaded_instance
       /\ Deleter (Some 2%positive) w' = (Undefined, w').
Proof.
  assert (Hl : scips two_handles_world !! 2%positive = Some solving_instance)
    by reflexivity.
  destruct (Deleter_frees two_handles_world 2%positive solving_instance Hl)
    as (w' & Hrun & _ & Hframe & _ & _ & Htwice).
  split; [exact Hl|]. exists w'. split; [exact Hrun|]. split; [|exact Htwice].
  assert (Hne : 1%positive <> 2%positive) by discriminate.
  exact (eq_trans (Hframe 1%positive Hne) eq_refl).
Defined.

Section Construction.
Context `{lib : SolverLib}.

Lemma Model_new_run (w : World) :
  Model_new w =
  if decide (fst (SCIPincludeDefaultPlugins_ fresh_instance) = SCIP_OKAY)
  then (Ok {| scip := Some (alloc_loc w) |},
        with_instance w (alloc_loc w)
          (snd (SCIPincludeDefaultPlugins_ fresh_instance)))
  else (Throw (make_exception (fst (SCIPincludeDefaultPlugins_ fresh_instance))),
        w).
Proof.
  unfold Model_new, with_instance. unfold bind at 1. rewrite create_run.
  unfold on_unwind, SCIPincludeDefaultPlugins, update, assign,
    unique_ptr_release, Deleter, SCIPfree.
  run_store. rewrite insert_insert_eq.
  destruct (SCIPincludeDefaultPlugins_ fresh_instance) as [rc p].
  cbn [fst snd].
  destruct (decide (rc = SCIP_OKAY)) as [->|Hrc]; [reflexivity|].
  destruct rc; try done; run_store;
    rewrite (delete_insert_id _ _ _ (alloc_loc_fresh w));
    by rewrite world_eta.
Qed.


(** X6. When [Model()] or [Model::from_file] returns, the handle holds an
    address that was not in use and at which an instance now lives; every
    instance that was alive before is still there unchanged and no handle
    object is touched.  Neither constructor has undefined behaviour. *)
Theorem construction_gives_fresh_handle (w : World) :
  (forall m w',
     Model_new w = (Ok m, w') ->
     scip m = Some (alloc_loc w)
     /\ scips w !! alloc_loc w = None
     /\ live m w' (snd (SCIPincludeDefaultPlugins_ fresh_instance))
     /\ (forall l s, scips w !! l = Some s -> scips w' !! l = Some s)
     /\ models w' = models w)
  /\ (forall filename m w',
        from_file filename w = (Ok m, w') ->
        scip m = Some (alloc_loc w)
        /\ scips w !! alloc_loc w = None
        /\ live m w'
             (snd (SCIPreadProb_
                     (snd (SCIPincludeDefaultPlugins_ fresh_instance)) filename))
        /\ (forall l s, scips w !! l = Some s -> scips w' !! l = Some s)
        /\ models w' = models w)
  /\ (forall w', Model_new w <> (Undefined, w'))
  /\ (forall filename w', from_file filename w <> (Undefined, w')).
Proof.
  assert (Hframe : forall x l s,
             scips w !! l = Some s ->
             scips (with_instance w (alloc_loc w) x) !! l = Some s).
  { intros x l s Hl. cbn. rewrite lookup_insert_ne; [done|].
    by apply (live_not_alloc _ _ s). }
  split; [|split; [|split]].
  - intros m w'. rewrite Model_new_run. case_decide; [|done].
    intros [= <- <-]. split; [done|]. split; [apply alloc_loc_fresh|].
    split; [|split; [apply Hframe|done]].
    exists (alloc_loc w). split; [done|]. apply lookup_insert_eq.
  - intros filename m w'. rewrite from_file_run. unfold from_file_result.
    repeat case_decide; try done.
    intros [= <- <-]. split; [done|]. split; [apply alloc_loc_fresh|].
    split; [|split; [apply (Hframe _)|done]].
    exists (alloc_loc w). split; [done|]. apply lookup_insert_eq.
  - intros w'. rewrite Model_new_run. by case_decide.
  - intros filename w'. rewrite from_file_run. unfold from_file_result.
    by repeat case_decide.
Qed.

End Construction.


Lemma construction_gives_fresh_handle_witness :
  exists m w',
    from_file "unit.lp" loaded_world = (Ok m, w')
    /\ scip m = Some (alloc_loc loaded_world)
    /\ scips w' !! 1%positive = Some loaded_instance.
Proof.
  assert (H : exists m w', from_file "unit.lp" loaded_world = (Ok m, w')).
  { eexists _, _. rewrite from_file_run. reflexivity. }
  destruct H as (m & w' & H).
  destruct (construction_gives_fresh_handle loaded_world) as (_ & Hfile & _).
  destruct (Hfile _ _ _ H) as (Hp & _ & _ & Hframe & _).
  exists m, w'. split; [exact H|]. split; [exact Hp|].
  apply Hframe. reflexivity.
Defined.

(** ** Comparison, stage and views *)

(** X7. [operator==] is an equivalence on handles (reflexive, symmetric,
    transitive), and [operator!=] is its complement. *)
Theorem Model_eq_equivalence :
  (forall a, Model_eq a a = true)
  /\ (forall a b, Model_eq a b = Model_eq b a)
  /\ (forall a b c, Model_eq a b = true -> Model_eq b c = true ->
                    Model_eq a c = true)
  /\ (forall a b, Model_ne a b = true <-> Model_eq a b = false)
  /\ (forall a b, Model_ne a b = false <-> Model_eq a b = true).
Proof.
  unfold Model_ne, Model_eq. split; [|split; [|split; [|split]]].
  - intros a. by apply bool_decide_eq_true.
  - intros a b. apply bool_decide_ext. split; congruence.
  - intros a b c Hab%bool_decide_eq_true Hbc%bool_decide_eq_true.
    apply bool_decide_eq_true. congruence.
  - intros a b. by destruct (bool_decide _).
  - intros a b. by destruct (bool_decide _).
Qed.

Lemma Model_eq_equivalence_witness :
  Model_eq sample_model other_model = false
  /\ Model_ne other_model sample_model = true.
Proof.
  destruct Model_eq_equivalence as (_ & Hsym & _ & Hne & _).
  assert (H : Model_eq sample_model other_model = false) by reflexivity.
  split; [exact H|]. apply Hne. by rewrite Hsym.
Defined.

(** X8. [variables()] has no stage check: on a live handle it returns in
    every stage, also where the views of the relaxation throw, and it
    changes nothing.  The view is over the solver's variables and its length
    is their number. *)
Theorem variables_in_every_stage (this : Model) (w : World) (s : SCIP) :
  live this w s ->
  Z.of_nat (length (vars s)) <= INT_MAX ->
  exists v,
    variables this w = (Ok v, w)
    /\ view_data v = vars s
    /\ view_size v = Z.of_nat (length (vars s))
    /\ view_scip v = scip this
    /\ (stage s <> SCIP_STAGE_SOLVING ->
        exists e, lp_columns this w = (Throw e, w) /\ StageViolation e).
Proof.
  intros Hlive Hn. eexists.
  split; [exact (NodeBipartiteProperties.variables_run _ _ _ Hlive Hn)|].
  repeat split. intros Hst. destruct Hlive as (l & Hp & Hl).
  eexists. split; [|by left].
  unfold lp_columns. run_M. rewrite Hp, Hl. by case_decide.
Qed.

Lemma variables_in_every_stage_witness :
  live sample_model solved_world solved_instance
  /\ exists v,
       variables sample_model solved_world = (Ok v, solved_world)
       /\ view_size v = 2
       /\ exists e, lp_columns sample_model solved_world = (Throw e, solved_world).
Proof.
  assert (L : live sample_model solved_world solved_instance)
    by (exists 1%positive; split; reflexivity).
  assert (Hn : Z.of_nat (length (vars solved_instance)) <= INT_MAX)
    by (unfold INT_MAX; simpl; lia).
  destruct (variables_in_every_stage _ _ _ L Hn) as (v & Hrun & _ & Hsize & _ & Hlp).
  destruct Hlp as (e & He & _); [discriminate|].
  split; [exact L|]. exists v. split; [exact Hrun|]. split; [exact Hsize|].
  by exists e.
Defined.

(** X9. [is_solved()] on a live handle returns whether the stage is
    [SCIP_STAGE_SOLVED] and changes nothing.  Whenever it returns [true],
    the rows and the columns of the relaxation are out of reach: both views
    throw the stage violation. *)
Theorem is_solved_excludes_lp_views (this : Model) (w : World) (s : SCIP) :
  live this w s ->
  is_solved this w = (Ok (bool_decide (stage s = SCIP_STAGE_SOLVED)), w)
  /\ (is_solved this w = (Ok true, w) ->
      (exists e, lp_columns this w = (Throw e, w) /\ StageViolation e)
      /\ (exists e, lp_rows this w = (Throw e, w) /\ StageViolation e)).
Proof.
  intros (l & Hp & Hl).
  assert (Hrun : is_solved this w
                 = (Ok (bool_decide (stage s = SCIP_STAGE_SOLVED)), w)).
  { unfold is_solved. run_M. by rewrite Hp, Hl. }
  split; [exact Hrun|]. rewrite Hrun.
  intros [= Hst%bool_decide_eq_true].
  split; eexists; (split; [|unfold StageViolation]).
  - unfold lp_columns. run_M. rewrite Hp, Hl, Hst. by case_decide.
  - by left.
  - unfold lp_rows. run_M. rewrite Hp, Hl, Hst. by case_decide.
  - by right.
Qed.

Lemma is_solved_excludes_lp_views_witness :
  live sample_model solved_world solved_instance
  /\ is_solved sample_model solved_world = (Ok true, solved_world)
  /\ exists e, lp_rows sample_model solved_world = (Throw e, solved_world).
Proof.
  assert (L : live sample_model solved_world solved_instance)
    by (exists 1%positive; split; reflexivity).
  destruct (is_solved_excludes_lp_views _ _ _ L) as [Hrun Hlp].
  destruct (Hlp Hrun) as [_ (e & He & _)].
  split; [exact L|]. split; [exact Hrun|]. by exists e.
Defined.

(** ** Helpers of [namespace internal] and the file-local [mod] *)

(** X10. The conversion of a [const char*] to [char] returns exactly for the
    strings of one character, with that character; for the empty string and
    for longer ones it throws "Can only convert a string with a single
    character to a char".  It never touches the store. *)
Theorem Cast_char_of_cstr_cases (val : string) (w : World) :
  (forall c, val = String c EmptyString -> Cast_char_of_cstr val w = (Ok c, w))
  /\ (String.length val <> 1%nat ->
      Cast_char_of_cstr val w =
      (Throw (Exception_what
                "Can only convert a string with a single character to a char"),
       w))
  /\ (forall c w', Cast_char_of_cstr val w = (Ok c, w') ->
                   val = String c EmptyString /\ w' = w)
  /\ (forall w', Cast_char_of_cstr val w <> (Undefined, w')).
Proof.
  unfold Cast_char_of_cstr. split; [|split; [|split]].
  - by intros c ->.
  - intros Hlen. by case_decide.
  - intros c w'. case_decide as Hlen; [|done].
    destruct val as [|c' [|]]; try done. by intros [= <- <-].
  - intros w'. case_decide as Hlen; [|done]. by destruct val.
Qed.

Lemma Cast_char_of_cstr_cases_witness :
  Cast_char_of_cstr "x" empty_world = (Ok "x"%char, empty_world)
  /\ String.length "" <> 1%nat
  /\ Cast_char_of_cstr "" empty_world
     = (Throw (Exception_what
                 "Can only convert a string with a single character to a char"),
        empty_world)
  /\ Cast_char_of_cstr "xy" empty_world
     = (Throw (Exception_what
                 "Can only convert a string with a single character to a char"),
        empty_world).
Proof.
  destruct (Cast_char_of_cstr_cases "x" empty_world) as (H1 & _).
  destruct (Cast_char_of_cstr_cases "" empty_world) as (_ & H0 & _).
  destruct (Cast_char_of_cstr_cases "xy" empty_world) as (_ & H2 & _).
  assert (L0 : String.length "" <> 1%nat) by discriminate.
  assert (L2 : String.length "xy" <> 1%nat) by discriminate.
  split; [exact (H1 _ eq_refl)|]. split; [exact L0|].
  split; [exact (H0 L0)|exact (H2 L2)].
Defined.






(** ** Copying and assigning, beyond live sources *)

Section CopyAssign.
Context `{lib : SolverLib}.


(** X13. A null handle is copied and assigned without complaint, unlike in
    [Model(unique_ptr<SCIP>&&)]: its copy is a null handle, equal to it, and
    the store is unchanged; assigning it to another handle frees the instance
    that handle held and leaves it null, every other instance staying as it
    was. *)
Theorem null_handle_is_copied_as_null (w : World) :
  (Model_copy null_model w = (Ok null_model, w)
   /\ Model_eq null_model null_model = true)
  /\ (forall (this other : loc) (t o : Model),
        other <> this ->
        models w !! this = Some t -> models w !! other = Some o ->
        scip o = None -> valid t w ->
        exists w',
          Model_assign this other w = (Ok this, w')
          /\ models w' !! this = Some null_model
          /\ models w' !! other = Some o
          /\ Model_eq null_model o = true
          /\ (forall lt, scip t = Some lt -> scips w' !! lt = None)
          /\ (forall l, scip t <> Some l -> scips w' !! l = scips w !! l)).
Proof.
  split; [by split|].
  intros this other t o Hne Ht Ho Hnull Hvalid.
  assert (Heq : Model_eq null_model o = true).
  { unfold Model_eq. apply bool_decide_eq_true. by rewrite Hnull. }
  unfold Model_assign. destruct (decide (other <> this)) as [_|?]; [|done].
  run_M. rewrite Ho, Ht, Hnull. cbn [copy]. run_M.
  destruct Hvalid as [Hnull'|(st & lt & Hpt & Hlt)].
  - rewrite Hnull'. eexists. split; [reflexivity|]. cbn [scips models].
    split; [apply lookup_insert_eq|]. split; [by rewrite lookup_insert_ne|].
    split; [exact Heq|]. split; [congruence|done].
  - rewrite Hpt. unfold unique_ptr_release, Deleter, SCIPfree.
    run_M. cbn [scips models]. rewrite Hlt.
    eexists. split; [reflexivity|]. cbn [scips models].
    split; [apply lookup_insert_eq|]. split; [by rewrite lookup_insert_ne|].
    split; [exact Heq|]. split.
    + intros ? [= <-]. apply lookup_delete_eq.
    + intros l Hl. apply lookup_delete_ne. congruence.
Qed.

(** X14. When the library refuses to clone the source, the copy constructor
    and the assignment throw its return code and leave everything as it was:
    the handle assigned to still holds its instance, and the instance
    allocated for the clone has been freed. *)
Theorem failed_clone_changes_nothing (w : World) (o : Model) (s : SCIP) :
  live o w s -> stage s <> SCIP_STAGE_INIT -> ~ clone_ok s ->
  Model_copy o w
  = (Throw (make_exception (fst (SCIPcopy_ s fresh_instance))), w)
  /\ (forall (this other : loc) (t : Model),
        other <> this ->
        models w !! this = Some t -> models w !! other = Some o ->
        Model_assign this other w
        = (Throw (make_exception (fst (SCIPcopy_ s fresh_instance))), w)).
Proof.
  intros (lo & Hpo & Hlo) Hst Hok.
  assert (Hcopy : copy (Some lo) w
                  = (Throw (make_exception (fst (SCIPcopy_ s fresh_instance))), w)).
  { rewrite (copy_clone_run _ _ _ Hlo Hst). unfold clone_ok in Hok.
    by case_decide. }
  split.
  - unfold Model_copy, get_scip_ptr. rewrite Hpo. unfold bind.
    by rewrite Hcopy.
  - intros this other t Hne Ht Ho.
    unfold Model_assign. destruct (decide (other <> this)) as [_|?]; [|done].
    run_M. by rewrite Ho, Ht, Hpo, Hcopy.
Qed.

(** X15. A handle on an instance in the stage [SCIP_STAGE_INIT] is copied
    as a new default instance, so what was written to its parameters is not
    in the copy: after a write to the original, the original reads the value
    written and the copy reads the value of the built-in parameter table. *)
Theorem copy_of_uninitialised_drops_parameters (h : Model) (w : World)
    (s : SCIP) (name : string) (old value dflt : SCIP_Param) :
  live h w s -> stage s = SCIP_STAGE_INIT ->
  paramset s !! name = Some old ->
  param_type_of old = param_type_of value ->
  core_paramset !! name = Some dflt ->
  exists w1 h' w2,
    set_scip_param (scip h) name value w = (Ok tt, w1)
    /\ Model_copy h w1 = (Ok h', w2)
    /\ live h' w2 fresh_instance
    /\ get_scip_param (scip h) name (param_type_of value) w2 = (Ok value, w2)
    /\ get_scip_param (scip h') name (param_type_of dflt) w2 = (Ok dflt, w2).
Proof.
  intros (l & Hp & Hl) Hst Hold Htag Hdflt.
  pose proof (written_lookup w l s name value) as [Hl1 Hv].
  set (s1 := set_paramset (<[name := value]> (paramset s)) s) in *.
  set (w1 := written w l s name value) in *.
  assert (Hlive1 : live h w1 s1) by (by exists l).
  pose proof (live_not_alloc _ _ _ Hl1) as Hfresh.
  exists w1. eexists _, _. rewrite Hp.
  split. { rewrite (set_scip_param_run _ _ _ _ _ Hl), Hold. by case_decide. }
  split. { apply (Model_copy_run _ _ _ Hlive1). by left. }
  unfold clone_of. destruct (decide (stage s1 = _)) as [_|?]; [|done].
  split. { exists (alloc_loc w1). split; [done|]. apply lookup_insert_eq. }
  split.
  - erewrite get_scip_param_run;
      [|cbn [scips]; rewrite lookup_insert_ne by done; exact Hl1].
    rewrite Hv. by case_decide.
  - cbn [scip]. erewrite get_scip_param_run; [|apply lookup_insert_eq].
    change (paramset fresh_instance) with core_paramset.
    rewrite Hdflt. by case_decide.
Qed.

End CopyAssign.


Lemma null_handle_is_copied_as_null_witness :
  models null_source_world !! 1%positive = Some sample_model
  /\ models null_source_world !! 2%positive = Some null_model
  /\ valid sample_model null_source_world
  /\ exists w',
       Model_assign 1%positive 2%positive null_source_world = (Ok 1%positive, w')
       /\ models w' !! 1%positive = Some null_model
       /\ scips w' !! 1%positive = None.
Proof.
  assert (Hv : valid sample_model null_source_world).
  { right. exists loaded_instance, 1%positive. split; reflexivity. }
  assert (Hne : 2%positive <> 1%positive) by discriminate.
  destruct (null_handle_is_copied_as_null null_source_world) as [_ H].
  destruct (H 1%positive 2%positive sample_model null_model Hne eq_refl eq_refl
              eq_refl Hv) as (w' & Hrun & Hthis & _ & _ & Hfree & _).
  split; [reflexivity|]. split; [reflexivity|]. split; [exact Hv|].
  exists w'. split; [exact Hrun|]. split; [exact Hthis|].
  exact (Hfree 1%positive eq_refl).
Defined.

Lemma failed_clone_changes_nothing_witness :
  live other_model two_handles_world solving_instance
  /\ stage solving_instance <> SCIP_STAGE_INIT
  /\ ~ @clone_ok refusing_lib solving_instance
  /\ @Model_assign refusing_lib 1%positive 2%positive two_handles_world
     = (Throw (make_exception SCIP_INVALIDCALL), two_handles_world).
Proof.
  assert (Hl : live other_model two_handles_world solving_instance)
    by (exists 2%positive; split; reflexivity).
  assert (Hst : stage solving_instance <> SCIP_STAGE_INIT) by discriminate.
  assert (Hok : ~ @clone_ok refusing_lib solving_instance) by discriminate.
  assert (Hne : 2%positive <> 1%positive) by discriminate.
  destruct (@failed_clone_changes_nothing refusing_lib two_handles_world
              other_model solving_instance Hl Hst Hok) as [_ H].
  split; [exact Hl|]. split; [exact Hst|]. split; [exact Hok|].
  exact (H 1%positive 2%positive sample_model Hne eq_refl eq_refl).
Defined.

Lemma copy_of_uninitialised_drops_parameters_witness :
  live sample_model init_world init_instance
  /\ stage init_instance = SCIP_STAGE_INIT
  /\ exists w1 h' w2,
       set_scip_param (Some 1%positive) "randomization/randomseedshift"
         (IntParam 42) init_world = (Ok tt, w1)
       /\ Model_copy sample_model w1 = (Ok h', w2)
       /\ get_scip_param (Some 1%positive) "randomization/randomseedshift"
            ParamType.Int w2 = (Ok (IntParam 42), w2)
       /\ get_scip_param (scip h') "randomization/randomseedshift"
            ParamType.Int w2 = (Ok (IntParam 0), w2).
Proof.
  assert (L : live sample_model init_world init_instance)
    by (exists 1%positive; split; reflexivity).
  assert (Hold : paramset init_instance !! "randomization/randomseedshift"%string
                 = Some (IntParam 0)) by reflexivity.
  assert (Hdflt : core_paramset !! "randomization/randomseedshift"%string
                  = Some (IntParam 0)) by reflexivity.
  destruct (copy_of_uninitialised_drops_parameters sample_model init_world
              init_instance "randomization/randomseedshift" (IntParam 0)
              (IntParam 42) (IntParam 0) L eq_refl Hold eq_refl Hdflt)
    as (w1 & h' & w2 & Hset & Hcopy & _ & Hget & Hget').
  split; [exact L|]. split; [reflexivity|]. eauto 10.
Defined.

(** ** The [std::string] overload of the string setter *)

Lemma c_str_NUL_free (v : string) : NUL_free (c_str v).
Proof.
  unfold NUL_free. induction v as [|c v IH]; [by intros ? []|].
  simpl. destruct (decide (c = Ascii.zero)) as [->|Hc]; [by intros ? []|].
  intros c' [<-|Hc']; [done|by apply IH].
Qed.

(** X16. Writing a string parameter from a [std::string] stores its
    characters up to the first NUL: the write returns when the parameter
    exists as a string parameter, and the getter then hands out exactly that
    prefix.  What is read back is the string written if and only if it has
    no NUL inside. *)
Theorem string_param_written_up_to_NUL (w : World) (l : loc) (s : SCIP)
    (name old v : string) :
  scips w !! l = Some s ->
  paramset s !! name = Some (StringParam old) ->
  exists w',
    set_scip_param_string (Some l) name v w = (Ok tt, w')
    /\ get_scip_param_cstr (Some l) name w' = (Ok (Some (c_str v)), w')
    /\ NUL_free (c_str v)
    /\ (c_str v = v <-> NUL_free v).
Proof.
  intros Hl Hold.
  pose proof (written_lookup w l s name (StringParam (c_str v))) as [Hl' Hv].
  eexists. split.
  { rewrite set_scip_param_string_run, (set_scip_param_run _ _ _ _ _ Hl), Hold.
    by case_decide. }
  split.
  { unfold get_scip_param_cstr, SCIPgetStringParam. run_live Hl'.
    by rewrite Hv. }
  split; [apply c_str_NUL_free|]. split.
  - intros <-. apply c_str_NUL_free.
  - apply c_str_id.
Qed.

Lemma string_param_written_up_to_NUL_witness :
  scips string_world !! 1%positive = Some string_instance
  /\ paramset string_instance !! "visual/vbcfilename"%string
     = Some (StringParam "-")
  /\ exists w',
       set_scip_param_string (Some 1%positive) "visual/vbcfilename"
         (String "a" (String Ascii.zero (String "b" EmptyString))) string_world
       = (Ok tt, w')
       /\ get_scip_param_cstr (Some 1%positive) "visual/vbcfilename" w'
          = (Ok (Some "a"%string), w').
Proof.
  assert (Hl : scips string_world !! 1%positive = Some string_instance)
    by reflexivity.
  assert (Hold : paramset string_instance !! "visual/vbcfilename"%string
                 = Some (StringParam "-")) by reflexivity.
  destruct (string_param_written_up_to_NUL string_world 1%positive
              string_instance "visual/vbcfilename" "-"
              (String "a" (String Ascii.zero (String "b" EmptyString)))
              Hl Hold) as (w' & Hset & Hget & _).
  split; [exact Hl|]. split; [exact Hold|]. exists w'. split; [exact Hset|].
  exact Hget.
Defined.

(** ** The members that forward to the library *)

Section Forwarding.
Context `{lib : SolverLib} `{ctl : SolverControl}.

Lemma forward_run (w : World) (l : loc) (s : SCIP)
    (f : SCIP -> SCIP_RETCODE * SCIP) :
  scips w !! l = Some s ->
  (let! rc := update (Some l) f in call rc) w
  = (if decide (fst (f s) = SCIP_OKAY) then Ok tt
     else Throw (make_exception (fst (f s))),
     with_instance w l (snd (f s))).
Proof.
  intros Hl. unfold update, assign, with_instance. run_live Hl.
  destruct (f s) as [rc s']. cbn [fst snd].
  case_decide as Hrc; [by rewrite Hrc|]. by destruct rc.
Qed.

(** X17. [solve], [interrupt_solve], [disable_presolve], [disable_cuts] and
    [read_prob] on a live handle hand the instance to one library call.
    They return when the call answers [SCIP_OKAY] and throw its return code
    otherwise; either way the handle still holds its instance at the same
    address, with the content the library left, and no other instance and no
    handle object is touched. *)
Theorem forwarding_member_keeps_handle (this : Model) (w : World) (s : SCIP)
    (op : M unit) (f : SCIP -> SCIP_RETCODE * SCIP) :
  forwarding_member this op f ->
  live this w s ->
  exists l w',
    scip this = Some l
    /\ (fst (f s) = SCIP_OKAY -> op w = (Ok tt, w'))
    /\ (fst (f s) <> SCIP_OKAY ->
        op w = (Throw (make_exception (fst (f s))), w'))
    /\ live this w' (snd (f s))
    /\ (forall l', l' <> l -> scips w' !! l' = scips w !! l')
    /\ models w' = models w.
Proof.
  intros Hop (l & Hp & Hl). exists l, (with_instance w l (snd (f s))).
  split; [exact Hp|].
  assert (Hrun : op w
                 = (if decide (fst (f s) = SCIP_OKAY) then Ok tt
                    else Throw (make_exception (fst (f s))),
                    with_instance w l (snd (f s)))).
  { destruct Hop;
      unfold solve, interrupt_solve, disable_presolve, disable_cuts, read_prob,
        SCIPsolve, SCIPinterruptSolve, SCIPsetPresolving, SCIPsetSeparating,
        SCIPreadProb, get_scip_ptr;
      rewrite Hp; exact (forward_run _ _ _ _ Hl). }
  rewrite Hrun.
  split; [intros ?; by case_decide|]. split; [intros ?; by case_decide|].
  split; [exists l; split; [done|apply lookup_insert_eq]|].
  split; [|done]. intros l' Hl'. cbn. by rewrite lookup_insert_ne.
Qed.

End Forwarding.

Lemma forwarding_member_keeps_handle_witness :
  live sample_model loaded_world loaded_instance
  /\ live sample_model init_world init_instance
  /\ (exists w', solve sample_model loaded_world = (Ok tt, w')
                 /\ is_solved sample_model w' = (Ok true, w'))
  /\ (exists w', solve sample_model init_world
                 = (Throw (make_exception SCIP_INVALIDCALL), w')
                 /\ live sample_model w' init_instance).
Proof.
  assert (L : live sample_model loaded_world loaded_instance)
    by (exists 1%positive; split; reflexivity).
  assert (L' : live sample_model init_world init_instance)
    by (exists 1%positive; split; reflexivity).
  destruct (forwarding_member_keeps_handle sample_model loaded_world
              loaded_instance _ _ (forwards_solve sample_model) L)
    as (l & w' & Hp & Hok & _ & Hlive & _).
  destruct (forwarding_member_keeps_handle sample_model init_world
              init_instance _ _ (forwards_solve sample_model) L')
    as (l2 & w2 & Hp2 & _ & Hfail & Hlive2 & _).
  split; [exact L|]. split; [exact L'|]. split.
  - exists w'. split; [exact (Hok eq_refl)|].
    destruct Hlive as (l' & Hp' & Hl'). unfold is_solved. run_M.
    rewrite Hp'. cbv beta iota. injection Hp' as <-. by rewrite Hl'.
  - exists w2. split; [|exact Hlive2]. apply Hfail. discriminate.
Defined.

(** ** The column layout of the observation *)

(** X18. The two enumerations of columns agree with the column counts:
    [VariableFeatures] numbers its members 0 to [n_variable_features] - 1
    without gap or repetition and [RowFeatures] 0 to [n_row_features] - 1;
    in both, the members below the static count are the static columns, so
    the dynamic block starts where the static block ends. *)
Theorem column_enumerations_match_counts :
  (forall f, (VariableFeatures_value f < NodeBipartiteObs.n_variable_features)%nat)
  /\ (forall f g, VariableFeatures_value f = VariableFeatures_value g -> f = g)
  /\ (forall k, (k < NodeBipartiteObs.n_variable_features)%nat ->
                exists f, VariableFeatures_value f = k)
  /\ (forall f,
        (NodeBipartite.static_variable_columns
         ++ NodeBipartite.dynamic_variable_columns) !! VariableFeatures_value f
        = Some f)
  /\ (forall f,
        (VariableFeatures_value f < NodeBipartiteObs.n_static_variable_features)%nat
        <-> In f NodeBipartite.static_variable_columns)
  /\ (forall f, (RowFeatures_value f < NodeBipartiteObs.n_row_features)%nat)
  /\ (forall f g, RowFeatures_value f = RowFeatures_value g -> f = g)
  /\ (forall k, (k < NodeBipartiteObs.n_row_features)%nat ->
                exists f, RowFeatures_value f = k)
  /\ (forall f,
        (NodeBipartite.static_row_columns
         ++ NodeBipartite.dynamic_row_columns) !! RowFeatures_value f = Some f)
  /\ (forall f,
        (RowFeatures_value f < NodeBipartiteObs.n_static_row_features)%nat
        <-> In f NodeBipartite.static_row_columns).
Proof.
  repeat apply conj.
  - intros f. destruct f; cbv -[Nat.lt lt]; lia.
  - intros f g. destruct f, g; (reflexivity || discriminate).
  - intros k Hk.
    exists (nth k (NodeBipartite.static_variable_columns
                   ++ NodeBipartite.dynamic_variable_columns)
              NodeBipartiteObs.objective).
    unfold NodeBipartiteObs.n_variable_features,
      NodeBipartiteObs.n_static_variable_features,
      NodeBipartiteObs.n_dynamic_variable_features in Hk.
    do 20 (destruct k as [|k]; [reflexivity|]). simpl in Hk. lia.
  - intros f. by destruct f.
  - intros f. unfold NodeBipartiteObs.n_static_variable_features.
    destruct f; simpl; split; intros H; try lia; try tauto;
      repeat (destruct H as [H|H]; try discriminate H); try done.
  - intros f. destruct f; cbv -[Nat.lt lt]; lia.
  - intros f g. destruct f, g; (reflexivity || discriminate).
  - intros k Hk.
    exists (nth k (NodeBipartite.static_row_columns
                   ++ NodeBipartite.dynamic_row_columns)
              NodeBipartiteObs.bias).
    unfold NodeBipartiteObs.n_row_features,
      NodeBipartiteObs.n_static_row_features,
      NodeBipartiteObs.n_dynamic_row_features in Hk.
    do 5 (destruct k as [|k]; [reflexivity|]). simpl in Hk. lia.
  - intros f. by destruct f.
  - intros f. unfold NodeBipartiteObs.n_static_row_features.
    destruct f; simpl; split; intros H; try lia; try tauto;
      repeat (destruct H as [H|H]; try discriminate H); try done.
Qed.

Lemma column_enumerations_match_counts_witness :
  VariableFeatures_value NodeBipartiteObs.has_lower_bound
  = NodeBipartiteObs.n_static_variable_features
  /\ ~ In NodeBipartiteObs.has_lower_bound NodeBipartite.static_variable_columns
  /\ exists f, VariableFeatures_value f = 19%nat.
Proof.
  destruct column_enumerations_match_counts as (_ & _ & Hsurj & _ & Hstatic & _).
  split; [reflexivity|]. split.
  - intros Hin. apply (proj2 (Hstatic _)) in Hin.
    change (5 < 5)%nat in Hin. lia.
  - apply Hsurj. change (19 < 20)%nat. lia.
Defined.

(** ** The tag of a parameter and the accessor that fits it *)

(** X19. The tag [get_param_type] reports is the one the typed getters
    accept: on a live handle, when it returns [T], the getter specialised
    for [T] returns the stored value, whose type is [T], and the getter for
    any other type throws the type mismatch. *)
Theorem get_param_type_selects_accessor (this : Model) (w : World) (s : SCIP)
    (name : string) (T : ParamType.t) :
  live this w s ->
  get_param_type this name w = (Ok T, w) ->
  exists value,
    paramset s !! name = Some value
    /\ param_type_of value = T
    /\ get_scip_param (scip this) name T w = (Ok value, w)
    /\ (forall T', T' <> T ->
          get_scip_param (scip this) name T' w = (Throw TypeMismatch, w)).
Proof.
  intros (l & Hp & Hl). rewrite (get_param_type_run _ _ _ _ _ Hp Hl), Hp.
  destruct (paramset s !! name) as [value|] eqn:Hv; [|done].
  intros [= <-]. exists value. split; [done|]. split; [done|]. split.
  - rewrite (get_scip_param_run _ _ _ _ _ Hl), Hv. by case_decide.
  - intros T' HT'. rewrite (get_scip_param_run _ _ _ _ _ Hl), Hv.
    case_decide; [congruence|done].
Qed.

Lemma get_param_type_selects_accessor_witness :
  live sample_model loaded_world loaded_instance
  /\ get_param_type sample_model "limits/time" loaded_world
     = (Ok ParamType.Real, loaded_world)
  /\ get_scip_param (Some 1%positive) "limits/time" ParamType.Real loaded_world
     = (Ok (RealParam NodeBipartite.one), loaded_world)
  /\ get_scip_param (Some 1%positive) "limits/time" ParamType.Bool loaded_world
     = (Throw TypeMismatch, loaded_world).
Proof.
  assert (L : live sample_model loaded_world loaded_instance)
    by (exists 1%positive; split; reflexivity).
  assert (Hty : get_param_type sample_model "limits/time" loaded_world
                = (Ok ParamType.Real, loaded_world)) by reflexivity.
  destruct (get_param_type_selects_accessor _ _ _ _ _ L Hty)
    as (value & Hv & _ & Hget & Hother).
  assert (Hval : value = RealParam NodeBipartite.one).
  { assert (Hv' : paramset loaded_instance !! "limits/time"%string
                  = Some (RealParam NodeBipartite.one)) by reflexivity.
    congruence. }
  split; [exact L|]. split; [exact Hty|]. split.
  - rewrite <- Hval. exact Hget.
  - apply Hother. discriminate.
Defined.
